(** * Block-parallel bzip2 compression: a shallow embedding

    This development embeds the two programs of the repository,

    - [parallel_bzip2.c]      (the _resident_ pipeline: the whole input is
                               read into memory, then blocks are compressed
                               by an OpenMP [parallel for]), and
    - [parallel_bzip2_mem.c]  (the _on-demand_ pipeline: every iteration
                               opens the input, seeks and reads its own
                               block),

    and proves properties of the block plan, of [compress_block],
    [write_bzip2_file], [cleanup_blocks] and of the two [main] functions.

    Conventions of the embedding.

    - C integers are [Z] with the wrap-around written out: [int] and
      [unsigned int] are 32 bits wide, [long] and [size_t] 64 bits (LP64,
      the platform of the Makefile).  Signed arithmetic and conversions wrap
      modulo the width, as the compiled code does on that platform.
    - Undefined behaviour that is not integer wrap-around (a read outside an
      allocation, [free] of a dead pointer, an integer division by zero) is
      the [None] of the option monad.
    - The heap is explicit; a pointer is [option nat], [None] being [NULL].
    - What the environment decides (whether an allocation succeeds, whether
      bzlib reports an internal error, how many bytes [fwrite] gets out) is
      read from oracles, over which every theorem quantifies.
    - The diagnostics [main] prints on [stderr] are events of the trace;
      other output ([printf], the messages from inside [compress_block] and
      [write_bzip2_file], the progress display) and the timing calls are not
      part of the embedding.
    - The buffers [file_data] and [block_data] are values; only the buffers
      of the compressed blocks, whose pointers outlive the function that
      allocates them, live in the heap.

    The file has four parts: the embedding of the source, the vocabulary
    of the statements, a test environment, and the properties. *)

From stdpp Require Import gmap strings list.
From Stdlib Require Import ZArith Lia.
Import ListNotations.
Open Scope Z_scope.

(** ** Machine integers *)

Definition to_uint (z : Z) : Z := z mod 2 ^ 32.
Definition to_int (z : Z) : Z := (z + 2 ^ 31) mod 2 ^ 32 - 2 ^ 31.
Definition to_long (z : Z) : Z := (z + 2 ^ 63) mod 2 ^ 64 - 2 ^ 63.
Definition to_size_t (z : Z) : Z := z mod 2 ^ 64.

Definition INT_MAX : Z := 2 ^ 31 - 1.
Definition LONG_MIN : Z := - 2 ^ 63.

(** [long / long]: C division truncates towards zero; a zero divisor and
    [LONG_MIN / -1] trap. *)
Definition long_div (a b : Z) : option Z :=
  if decide (b = 0) then None
  else if decide (a = LONG_MIN ∧ b = -1) then None
  else Some (Z.quot a b).

(** ** The block plan

    [num_blocks = (file_size + BLOCK_SIZE - 1) / BLOCK_SIZE], computed in
    [long] and stored in an [int]. *)
Definition num_blocks_of (file_size BLOCK_SIZE : Z) : option Z :=
  q ← long_div (to_long (to_long (file_size + BLOCK_SIZE) - 1)) BLOCK_SIZE;
  Some (to_int q).

(** [unsigned int offset = i * BLOCK_SIZE;] in [parallel_bzip2.c]: the
    product is an [int]. *)
Definition block_offset (i BLOCK_SIZE : Z) : Z :=
  to_uint (to_int (i * BLOCK_SIZE)).

(** [unsigned int offset = (long)i * BLOCK_SIZE;] in
    [parallel_bzip2_mem.c]: the product is a [long]. *)
Definition block_offset_mem (i BLOCK_SIZE : Z) : Z :=
  to_uint (to_long (i * BLOCK_SIZE)).

(** [[
      unsigned int block_size = BLOCK_SIZE;
      if (offset + block_size > file_size) block_size = file_size - offset;
    ]]
    The sum is an [unsigned int]; the comparison and the difference are
    done in [long]. *)
Definition block_length (offset BLOCK_SIZE file_size : Z) : Z :=
  let block_size := to_uint BLOCK_SIZE in
  if decide (to_uint (offset + block_size) > file_size)
  then to_uint (to_long (file_size - offset))
  else block_size.

(** The range of block [i], as each pipeline computes it. *)
Definition block_range (i BLOCK_SIZE file_size : Z) : Z * Z :=
  let offset := block_offset i BLOCK_SIZE in
  (offset, block_length offset BLOCK_SIZE file_size).

Definition block_range_mem (i BLOCK_SIZE file_size : Z) : Z * Z :=
  let offset := block_offset_mem i BLOCK_SIZE in
  (offset, block_length offset BLOCK_SIZE file_size).

(** The indices the loop [for (int i = 0; i < num_blocks; i++)] runs over. *)
Definition loop_indices (num_blocks : Z) : list nat := seq 0 (Z.to_nat num_blocks).

(** The whole plan: the ranges of the blocks [0 .. num_blocks - 1]. *)
Definition block_plan (file_size BLOCK_SIZE : Z) : option (list (Z * Z)) :=
  n ← num_blocks_of file_size BLOCK_SIZE;
  Some ((λ i : nat, block_range_mem (Z.of_nat i) BLOCK_SIZE file_size) <$> loop_indices n).

(** What the specification asks of a plan: the ranges start at 0, each one
    starts where the previous one ends, they end at [total_length], every
    range but the last has the configured length, and the last one is not
    empty and not longer than a block. *)
Fixpoint contiguous_from (start : Z) (plan : list (Z * Z)) : Prop :=
  match plan with
  | [] => True
  | (offset, len) :: rest => offset = start ∧ 0 < len ∧ contiguous_from (start + len) rest
  end.

Definition plan_end (plan : list (Z * Z)) : Z :=
  match last plan with
  | Some (offset, len) => offset + len
  | None => 0
  end.

Definition plan_covers (total_length block_size : Z) (plan : list (Z * Z)) : Prop :=
  contiguous_from 0 plan
  ∧ plan_end plan = total_length
  ∧ (∀ i r, plan !! i = Some r → (S i < length plan)%nat → r.2 = block_size)
  ∧ (∀ r, last plan = Some r → 0 < r.2 ≤ block_size).

(** ** The heap

    Allocations are numbered; an address is never handed out twice, so a
    dangling pointer stays distinguishable from a live one. *)

Abbreviation bytes := (list Byte.byte).

Record heap := { next_addr : nat; cells : gmap nat bytes }.

Definition empty_heap : heap := {| next_addr := 0; cells := ∅ |}.

(** [malloc(n)]: [ok] is the allocator's answer.  The fresh buffer holds
    [n] bytes of unspecified content, written as zero bytes. *)
Definition malloc (ok : bool) (n : Z) (h : heap) : option nat * heap :=
  if ok then
    (Some (next_addr h),
     {| next_addr := S (next_addr h);
        cells := <[next_addr h := replicate (Z.to_nat n) Byte.x00]> (cells h) |})
  else (None, h).

(** [free(p)]: nothing for [NULL]; undefined when [p] is not live. *)
Definition free (p : option nat) (h : heap) : option heap :=
  match p with
  | None => Some h
  | Some a =>
      match cells h !! a with
      | Some _ => Some {| next_addr := next_addr h; cells := delete a (cells h) |}
      | None => None
      end
  end.

(** [realloc(p, n)] for a live [p]: on success the buffer is cut (or padded)
    to [n] bytes; on failure [NULL] is returned and the buffer stays. *)
Definition realloc (ok : bool) (a : nat) (n : Z) (h : heap) : option (option nat * heap) :=
  buf ← cells h !! a;
  if ok then
    Some (Some a,
          {| next_addr := next_addr h;
             cells := <[a := take (Z.to_nat n) (buf ++ replicate (Z.to_nat n) Byte.x00)]> (cells h) |})
  else Some (None, h).

(** ** The compressed-block record *)

Record CompressedBlock := {
  data : option nat;        (* where data is stored *)
  size : Z;                 (* bytes after compression *)
  original_size : Z         (* bytes before compression *)
}.

(** An entry as [calloc] leaves it. *)
Definition zero_block : CompressedBlock :=
  {| data := None; size := 0; original_size := 0 |}.

(** ** bzlib

    [BZ2_bzBuffToBuffCompress] belongs to libbz2, not to the repository.  It
    is taken as its manual describes it: with fixed [blockSize100k],
    [verbosity] and [workFactor] the compressed stream is a function
    [bz_stream] of the source bytes; if the stream fits into [*destLen] bytes
    it is stored at [dest], [*destLen] becomes its length and [BZ_OK] is
    returned; otherwise [BZ_OUTBUFF_FULL] is returned.  The library may also
    give up for reasons of its own ([bz_fault]). *)

Definition BZ_OK : Z := 0.
Definition BZ_MEM_ERROR : Z := -3.
Definition BZ_OUTBUFF_FULL : Z := -8.
Definition BZ_CONFIG_ERROR : Z := -9.

Inductive bz_fault := BzMemError | BzConfigError.

Definition bz_code (f : bz_fault) : Z :=
  match f with BzMemError => BZ_MEM_ERROR | BzConfigError => BZ_CONFIG_ERROR end.

(** What the environment answers during one call of [compress_block]. *)
Record call_env := {
  malloc_ok : bool;               (* does [malloc(output_buffer_size)] succeed *)
  bz_gives_up : option bz_fault;  (* does bzlib fail on its own account *)
  realloc_ok : bool               (* does the final [realloc] succeed *)
}.

Definition no_fault : call_env :=
  {| malloc_ok := true; bz_gives_up := None; realloc_ok := true |}.

Section Pipeline.

Variable bz_stream : bytes → bytes.

(** Returns the result code, the new value of [*destLen] and the heap. *)
Definition BZ2_bzBuffToBuffCompress (fault : option bz_fault)
    (dest : nat) (destLen : Z) (source : bytes) (h : heap) : option (Z * Z * heap) :=
  buf ← cells h !! dest;
  match fault with
  | Some f => Some (bz_code f, destLen, h)
  | None =>
      let out := bz_stream source in
      if decide (Z.of_nat (length out) ≤ destLen) then
        Some (BZ_OK, Z.of_nat (length out),
              {| next_addr := next_addr h;
                 cells := <[dest := out ++ drop (length out) buf]> (cells h) |})
      else Some (BZ_OUTBUFF_FULL, destLen, h)
  end.

(** ** [compress_block]

    [unsigned int output_buffer_size = input_size + (input_size / 100) + 600;] *)
Definition output_buffer_size (input_size : Z) : Z :=
  to_uint (to_uint (input_size + input_size / 100) + 600).

(** [input] is the [input_size] bytes at the pointer the caller passes. *)
Definition compress_block (e : call_env) (input : bytes) (input_size : Z)
    (output : CompressedBlock) (h : heap) : option (Z * CompressedBlock * heap) :=
  let output_buffer_size := output_buffer_size input_size in
  let '(p, h) := malloc (malloc_ok e) output_buffer_size h in
  match p with
  | None =>
      Some (-1, {| data := None; size := size output;
                   original_size := original_size output |}, h)
  | Some a =>
      '(result, destLen, h) ←
        BZ2_bzBuffToBuffCompress (bz_gives_up e) a output_buffer_size input h;
      if decide (result ≠ BZ_OK) then
        h ← free (Some a) h;
        Some (-1, {| data := None; size := output_buffer_size;
                     original_size := input_size |}, h)
      else
        '(q, h) ← realloc (realloc_ok e) a destLen h;
        Some (0, {| data := q; size := destLen; original_size := input_size |}, h)
  end.

(** ** [cleanup_blocks]

    [[
      for (i = 0; i < num_blocks; i++) if (blocks[i].data) free(blocks[i].data);
    ]]
    Reading [blocks[i]] outside the table is undefined.  The table itself
    is not kept in the heap, so the final [free(blocks)] has no
    counterpart. *)
Fixpoint cleanup_loop (indices : list nat) (blocks : list CompressedBlock)
    (h : heap) : option heap :=
  match indices with
  | [] => Some h
  | i :: rest =>
      b ← blocks !! i;
      h ← (match data b with Some a => free (Some a) h | None => Some h end);
      cleanup_loop rest blocks h
  end.

Definition cleanup_blocks (blocks : list CompressedBlock) (num_blocks : Z)
    (h : heap) : option heap :=
  cleanup_loop (loop_indices num_blocks) blocks h.

(** ** The world outside the process

    The file system maps a path to the content of the file there.  The trace
    records, in program order, the file-system calls, the diagnostics [main]
    prints on [stderr], and the end of every iteration of the parallel
    loop. *)

Inductive diagnostic :=
| InvalidBlockSize                (* "Invalid block size" *)
| Usage                           (* "Usage: %s [-b block_size_kb] ..." *)
| ErrorOpeningInput               (* perror("Error opening input file") *)
| AllocationFailed                (* "Memory allocation failed" *)
| AllocationFailedFileData        (* "Memory allocation failed for file data" *)
| ErrorReadingFile                (* "Error reading file" *)
| CompressionFailed (n : Z)       (* "Compression failed for %d blocks" *)
| FailedToWriteOutput.            (* "Failed to write output file" *)

Inductive event :=
| EvStat (path : string)
| EvOpenRead (path : string)
| EvOpenWrite (path : string)
| EvIteration (i : nat) (failed : bool)
| EvDiag (d : diagnostic).

Record world := { files : gmap string bytes; trace : list event }.

Definition log (e : event) (w : world) : world :=
  {| files := files w; trace := trace w ++ [e] |}.

(** [get_file_size]: [st_size] if [stat] succeeds, -1 otherwise. *)
Definition get_file_size (filename : string) (w : world) : Z * world :=
  (match files w !! filename with
   | Some content => Z.of_nat (length content)
   | None => -1
   end, log (EvStat filename) w).

(** [fread(buf, 1, n, fp)] with the stream at position [pos]: the bytes that
    are there, at most [n] of them, fewer if the device fails first. *)
Definition fread (limit : option Z) (content : bytes) (pos n : Z) : bytes :=
  let available := take (Z.to_nat n) (drop (Z.to_nat pos) content) in
  match limit with
  | None => available
  | Some k => take (Z.to_nat k) available
  end.

(** [fwrite(p, 1, n, fp)]: the count written and the bytes that went out.
    Reading [n > 0] bytes from [NULL], a dead pointer or past the end of the
    buffer is undefined. *)
Definition fwrite (limit : option Z) (p : option nat) (n : Z) (h : heap)
    : option (Z * bytes) :=
  if decide (n = 0) then Some (0, [])
  else
    a ← p;
    buf ← cells h !! a;
    if decide (n ≤ Z.of_nat (length buf)) then
      let written := match limit with None => n | Some k => Z.min n (Z.max 0 k) end in
      Some (written, take (Z.to_nat written) buf)
    else None.

(** ** [write_bzip2_file] *)
Fixpoint write_loop (limit : nat → option Z) (indices : list nat)
    (blocks : list CompressedBlock) (h : heap) (sent : bytes) : option (Z * bytes) :=
  match indices with
  | [] => Some (0, sent)
  | i :: rest =>
      b ← blocks !! i;
      '(written, chunk) ← fwrite (limit i) (data b) (size b) h;
      if decide (written ≠ size b) then Some (-1, sent ++ chunk)
      else write_loop limit rest blocks h (sent ++ chunk)
  end.

Definition write_bzip2_file (open_ok : bool) (limit : nat → option Z)
    (output_filename : string) (blocks : list CompressedBlock) (num_blocks : Z)
    (h : heap) (w : world) : option (Z * world) :=
  let w := log (EvOpenWrite output_filename) w in
  if open_ok then
    '(r, content) ← write_loop limit (loop_indices num_blocks) blocks h [];
    Some (r, {| files := <[output_filename := content]> (files w); trace := trace w |})
  else Some (-1, w).

(** ** The statistics of [main]

    [[
      long total_compressed = 0;
      for (int i = 0; i < num_blocks; i++)
          total_compressed += compressed_blocks[i].size;
    ]]
    The sum is a [long]. *)
Fixpoint total_loop (indices : list nat) (blocks : list CompressedBlock)
    (total_compressed : Z) : option Z :=
  match indices with
  | [] => Some total_compressed
  | i :: rest =>
      b ← blocks !! i;
      total_loop rest blocks (to_long (total_compressed + size b))
  end.

Definition total_compressed (blocks : list CompressedBlock) (num_blocks : Z)
    : option Z :=
  total_loop (loop_indices num_blocks) blocks 0.

(** ** The command line

    The [getopt] loop sees a sequence of options; [OptB v] is a [-b] whose
    argument [atoi] turned into the [int] [v], [OptOther] anything else
    [getopt] reports.  The operands are what is left of [argv]. *)

Inductive getopt_result := OptB (value : Z) | OptOther.

Record cmdline := { options : list getopt_result; operands : list string }.

Fixpoint getopt_loop (opts : list getopt_result) (block_size_kb : Z)
    : diagnostic + Z :=
  match opts with
  | [] => inr block_size_kb
  | OptB value :: rest =>
      if decide (value ≤ 0) then inl InvalidBlockSize else getopt_loop rest value
  | OptOther :: _ => inl Usage
  end.

(** ** The environment's answers *)

Inductive alloc_site := TableAlloc | FileDataAlloc | BlockDataAlloc (i : nat).
Inductive stream := InputStream | BlockStream (i : nat).

Record oracle := {
  alloc_ok : alloc_site → bool;        (* [calloc]/[malloc] in [main] *)
  open_ok : stream → bool;             (* [fopen(input_filename, "rb")] *)
  read_limit : stream → option Z;      (* an I/O error after that many bytes *)
  block_env : nat → call_env;          (* inside [compress_block] for block [i] *)
  output_open_ok : bool;               (* [fopen(output_filename, "wb")] *)
  write_limit : nat → option Z         (* a short [fwrite] for block [i] *)
}.

(** ** The state of a run *)

Record context := {
  input_filename : string;
  output_filename : string;
  BLOCK_SIZE : Z;
  file_size : Z;
  num_blocks : Z;
  file_data : bytes                    (* resident pipeline only *)
}.

Record loop_state := {
  compressed_blocks : list CompressedBlock;
  compression_errors : Z;
  mem : heap;
  env : world
}.

Definition exit_with (d : diagnostic) (w : world) : Z * world :=
  (1, log (EvDiag d) w).

(** [fopen(filename, "rb")]: the content of the file if it can be opened. *)
Definition fopen_read (ok : bool) (filename : string) (w : world)
    : option bytes * world :=
  (if ok then files w !! filename else None, log (EvOpenRead filename) w).

(** The bytes [p + offset .. p + offset + n) of a buffer; undefined outside
    of it. *)
Definition read_at (buf : bytes) (offset n : Z) : option bytes :=
  if decide (offset + n ≤ Z.of_nat (length buf))
  then Some (take (Z.to_nat n) (drop (Z.to_nat offset) buf))
  else None.

(** What [compression_errors++] and the end of an iteration do. *)
Definition end_iteration (i : nat) (failed : bool) (blocks : list CompressedBlock)
    (h : heap) (w : world) (s : loop_state) : loop_state :=
  {| compressed_blocks := blocks;
     compression_errors :=
       if failed then to_int (compression_errors s + 1) else compression_errors s;
     mem := h;
     env := log (EvIteration i failed) w |}.

(** ** The loop body of [parallel_bzip2.c]

    [file_data + offset] is passed to [compress_block], which hands it to
    bzlib to read [block_size] bytes from; the iteration is undefined as soon
    as that range leaves the buffer. *)
Definition iteration (o : oracle) (ctx : context) (i : nat) (s : loop_state)
    : option loop_state :=
  let offset := block_offset (Z.of_nat i) (BLOCK_SIZE ctx) in
  let block_size := block_length offset (BLOCK_SIZE ctx) (file_size ctx) in
  input ← read_at (file_data ctx) offset block_size;
  output ← compressed_blocks s !! i;
  '(result, output, h) ← compress_block (block_env o i) input block_size output (mem s);
  Some (end_iteration i (bool_decide (result ≠ 0))
          (<[i := output]> (compressed_blocks s)) h (env s) s).

(** ** The loop body of [parallel_bzip2_mem.c]

    The three [continue] paths leave [compressed_blocks[i]] as it is. *)
Definition iteration_mem (o : oracle) (ctx : context) (i : nat) (s : loop_state)
    : option loop_state :=
  let offset := block_offset_mem (Z.of_nat i) (BLOCK_SIZE ctx) in
  let block_size := block_length offset (BLOCK_SIZE ctx) (file_size ctx) in
  let '(fp, w) := fopen_read (open_ok o (BlockStream i)) (input_filename ctx) (env s) in
  match fp with
  | None => Some (end_iteration i true (compressed_blocks s) (mem s) w s)
  | Some content =>
      if negb (alloc_ok o (BlockDataAlloc i)) then
        Some (end_iteration i true (compressed_blocks s) (mem s) w s)
      else
        let block_data := fread (read_limit o (BlockStream i)) content offset block_size in
        if decide (Z.of_nat (length block_data) ≠ block_size) then
          Some (end_iteration i true (compressed_blocks s) (mem s) w s)
        else
          output ← compressed_blocks s !! i;
          '(result, output, h) ←
            compress_block (block_env o i) block_data block_size output (mem s);
          Some (end_iteration i (bool_decide (result ≠ 0))
                  (<[i := output]> (compressed_blocks s)) h w s)
  end.

(** The iterations of the loop, run to their end one after the other in the
    order [order]. *)
Fixpoint run_iterations (body : nat → loop_state → option loop_state)
    (order : list nat) (s : loop_state) : option loop_state :=
  match order with
  | [] => Some s
  | i :: rest => s ← body i s; run_iterations body rest s
  end.

(** ** [main], up to the parallel loop *)

Definition initial_state (num_blocks : Z) (w : world) : loop_state :=
  {| compressed_blocks := replicate (Z.to_nat num_blocks) zero_block;
     compression_errors := 0;
     mem := empty_heap;
     env := w |}.

(** [calloc(num_blocks, sizeof(CompressedBlock))]: a negative [int] becomes
    a [size_t] so large that the product overflows and [calloc] fails. *)
Definition calloc_table (ok : bool) (num_blocks : Z) : bool :=
  bool_decide (0 ≤ num_blocks) && ok.

(** The configuration checks both programs start with: the [getopt] loop and
    the operand count. *)
Definition configure (c : cmdline) : diagnostic + Z * string * string :=
  match getopt_loop (options c) 900 with
  | inl d => inl d
  | inr block_size_kb =>
      match operands c with
      | [input_filename; output_filename] =>
          inr (block_size_kb, input_filename, output_filename)
      | _ => inl Usage
      end
  end.

Definition startup (o : oracle) (c : cmdline) (w : world)
    : option (Z * world + context * loop_state) :=
  match configure c with
  | inl d => Some (inl (exit_with d w))
  | inr (block_size_kb, input_filename, output_filename) =>
      let BLOCK_SIZE := to_int (block_size_kb * 1024) in
      let '(input_file, w) := fopen_read (open_ok o InputStream) input_filename w in
      match input_file with
      | None => Some (inl (exit_with ErrorOpeningInput w))
      | Some content =>
          let '(file_size, w) := get_file_size input_filename w in
          num_blocks ← num_blocks_of file_size BLOCK_SIZE;
          if negb (calloc_table (alloc_ok o TableAlloc) num_blocks) then
            Some (inl (exit_with AllocationFailed w))
          else if negb (alloc_ok o FileDataAlloc) then
            Some (inl (exit_with AllocationFailedFileData w))
          else
            let file_data :=
              fread (read_limit o InputStream) content 0 (to_size_t file_size) in
            if decide (Z.of_nat (length file_data) ≠ to_size_t file_size) then
              Some (inl (exit_with ErrorReadingFile w))
            else
              Some (inr ({| input_filename := input_filename;
                            output_filename := output_filename;
                            BLOCK_SIZE := BLOCK_SIZE;
                            file_size := file_size;
                            num_blocks := num_blocks;
                            file_data := file_data |},
                         initial_state num_blocks w))
      end
  end.

Definition startup_mem (o : oracle) (c : cmdline) (w : world)
    : option (Z * world + context * loop_state) :=
  match configure c with
  | inl d => Some (inl (exit_with d w))
  | inr (block_size_kb, input_filename, output_filename) =>
      let BLOCK_SIZE := to_int (block_size_kb * 1024) in
      let '(file_size, w) := get_file_size input_filename w in
      num_blocks ← num_blocks_of file_size BLOCK_SIZE;
      if negb (calloc_table (alloc_ok o TableAlloc) num_blocks) then
        Some (inl (exit_with AllocationFailed w))
      else
        Some (inr ({| input_filename := input_filename;
                      output_filename := output_filename;
                      BLOCK_SIZE := BLOCK_SIZE;
                      file_size := file_size;
                      num_blocks := num_blocks;
                      file_data := [] |},
                   initial_state num_blocks w))
  end.

(** ** [main], after the parallel loop *)
Definition finish (o : oracle) (ctx : context) (s : loop_state) : option (Z * world) :=
  if decide (compression_errors s > 0) then
    _ ← cleanup_blocks (compressed_blocks s) (num_blocks ctx) (mem s);
    Some (exit_with (CompressionFailed (compression_errors s)) (env s))
  else
    '(r, w) ← write_bzip2_file (output_open_ok o) (write_limit o) (output_filename ctx)
                (compressed_blocks s) (num_blocks ctx) (mem s) (env s);
    _ ← cleanup_blocks (compressed_blocks s) (num_blocks ctx) (mem s);
    if decide (r ≠ 0) then Some (exit_with FailedToWriteOutput w)
    else Some (0, w).

(** ** The two programs

    [order] is the order in which the iterations of the parallel loop come
    to their end; which orders a team of threads can produce is the matter of
    [omp_for] below. *)
Definition main (o : oracle) (order : list nat) (c : cmdline) (w : world)
    : option (Z * world) :=
  r ← startup o c w;
  match r with
  | inl e => Some e
  | inr (ctx, s) => s ← run_iterations (iteration o ctx) order s; finish o ctx s
  end.

Definition main_mem (o : oracle) (order : list nat) (c : cmdline) (w : world)
    : option (Z * world) :=
  r ← startup_mem o c w;
  match r with
  | inl e => Some e
  | inr (ctx, s) => s ← run_iterations (iteration_mem o ctx) order s; finish o ctx s
  end.

(** The number of iterations the parallel loop of a run has. *)
Definition loop_size (r : option (Z * world + context * loop_state)) : nat :=
  match r with
  | Some (inr (ctx, _)) => Z.to_nat (num_blocks ctx)
  | _ => 0
  end.

End Pipeline.

(** ** [#pragma omp parallel for schedule(dynamic)]

    A team of threads shares the iterations [0 .. n-1]: a thread that is idle
    claims the next iteration that nobody has claimed yet and runs it.  An
    iteration touches the shared state in its own entry of the table, in
    thread-safe library calls and in an atomic increment, so its effect is
    accounted for at the moment it ends; [finished] lists the iterations in
    that order. *)

Record pool := {
  next_index : nat;                 (* the loop counter of the team *)
  in_flight : list (option nat);    (* per thread, the iteration it runs *)
  finished : list nat               (* the iterations that ended, in order *)
}.

Inductive pool_step (n : nat) : pool → pool → Prop :=
| step_claim t p :
    in_flight p !! t = Some None →
    (next_index p < n)%nat →
    pool_step n p {| next_index := S (next_index p);
                     in_flight := <[t := Some (next_index p)]> (in_flight p);
                     finished := finished p |}
| step_finish t i p :
    in_flight p !! t = Some (Some i) →
    pool_step n p {| next_index := next_index p;
                     in_flight := <[t := None]> (in_flight p);
                     finished := finished p ++ [i] |}.

Definition pool_init (nthreads : nat) : pool :=
  {| next_index := 0; in_flight := replicate nthreads None; finished := [] |}.

(** The implicit barrier at the end of the loop. *)
Definition pool_done (n : nat) (p : pool) : Prop :=
  next_index p = n ∧ Forall (λ r, r = None) (in_flight p).

(** [order] is an order in which a team of [nthreads] threads can end the
    [n] iterations. *)
Definition omp_for (nthreads n : nat) (order : list nat) : Prop :=
  ∃ p, rtc (pool_step n) (pool_init nthreads) p ∧ pool_done n p ∧ finished p = order.

(** What is left to do: decreases with every step of the team. *)
Definition pool_measure (n : nat) (p : pool) : nat :=
  2 * (n - next_index p) + length (omap id (in_flight p)).

(** * The vocabulary of the statements *)

(** Claimed iterations are either finished or in flight, each once. *)
Definition pool_inv (n : nat) (p : pool) : Prop :=
  (next_index p ≤ n)%nat ∧ finished p ++ omap id (in_flight p) ≡ₚ seq 0 (next_index p).

(** Live addresses are below the allocation pointer. *)
Definition heap_wf (h : heap) : Prop :=
  ∀ a, is_Some (cells h !! a) → (a < next_addr h)%nat.

(** bzlib returns [BZ_OK]: it does not give up and the stream fits. *)
Definition bz_succeeds (bz_stream : bytes → bytes) (e : call_env) (input : bytes)
    (input_size : Z) : Prop :=
  bz_gives_up e = None
  ∧ Z.of_nat (length (bz_stream input)) ≤ output_buffer_size input_size.

(** Every pointer in the table is live and no two entries share one. *)
Definition table_ok (h : heap) (blocks : list CompressedBlock) : Prop :=
  (∀ i b a, blocks !! i = Some b → data b = Some a → is_Some (cells h !! a))
  ∧ (∀ i j bi bj a, blocks !! i = Some bi → blocks !! j = Some bj →
       data bi = Some a → data bj = Some a → i = j).

(** The invariant of the parallel loop over a table of [n] entries. *)
Definition loop_inv (n : nat) (s : loop_state) : Prop :=
  heap_wf (mem s)
  ∧ length (compressed_blocks s) = n
  ∧ table_ok (mem s) (compressed_blocks s).

(** Reading the trace: the end of an iteration, the opening of a file for
    writing. *)
Definition iteration_of (e : event) : option (nat * bool) :=
  match e with EvIteration i failed => Some (i, failed) | _ => None end.

Definition is_open_write (e : event) : bool :=
  match e with EvOpenWrite _ => true | _ => false end.

(** The iterations a trace records, and how many of them failed. *)
Definition iterations (t : list event) : list (nat * bool) := omap iteration_of t.

Definition failed_count (flags : list bool) : Z :=
  Z.of_nat (length (filter (λ f, f = true) flags)).

(** The bytes of block [i]: what lies in the range the program computes
    for it. *)
Definition block_input (content : bytes) (BLOCK_SIZE file_size : Z) (i : nat) : bytes :=
  let offset := block_offset (Z.of_nat i) BLOCK_SIZE in
  let block_size := block_length offset BLOCK_SIZE file_size in
  take (Z.to_nat block_size) (drop (Z.to_nat offset) content).

(** An entry that holds the payload [P], unless the final [realloc] lost
    the buffer. *)
Definition good_entry (h : heap) (P : bytes) (b : CompressedBlock) : Prop :=
  size b = Z.of_nat (length P)
  ∧ (data b = None ∨ ∃ a, data b = Some a ∧ cells h !! a = Some P).

(** What an iteration does to the shared state: it appends to the trace,
    ending with its own [EvIteration]; it counts its failure; it replaces
    entry [i] of the table and nothing else; it leaves the older buffers
    alone. *)
Definition iteration_post (n : nat) (P : nat → bytes) (i : nat)
    (s s' : loop_state) : Prop :=
  ∃ f t b,
    env s' = {| files := files (env s);
                trace := trace (env s) ++ t ++ [EvIteration i f] |}
    ∧ Forall (λ e, iteration_of e = None ∧ is_open_write e = false) t
    ∧ compression_errors s'
      = (if f then to_int (compression_errors s + 1) else compression_errors s)
    ∧ loop_inv n s'
    ∧ (next_addr (mem s) ≤ next_addr (mem s'))%nat
    ∧ (∀ a, (a < next_addr (mem s))%nat → cells (mem s') !! a = cells (mem s) !! a)
    ∧ compressed_blocks s' = <[i := b]> (compressed_blocks s)
    ∧ (f = true → compressed_blocks s !! i = Some zero_block → data b = None)
    ∧ (f = false → good_entry (mem s') (P i) b).

(** A loop body all of whose iterations behave like that, on the files
    [F] and with the payloads [P]. *)
Definition iteration_spec (n : nat) (F : gmap string bytes) (P : nat → bytes)
    (body : nat → loop_state → option loop_state) : Prop :=
  ∀ i s s', loop_inv n s → files (env s) = F → (i < n)%nat → body i s = Some s' →
    iteration_post n P i s s'.

(** The two programs, to state once what holds of both. *)
Inductive pipeline := Resident | OnDemand.

Definition startup_of (p : pipeline) :=
  match p with Resident => startup | OnDemand => startup_mem end.

Definition body_of (bz_stream : bytes → bytes) (p : pipeline) :=
  match p with Resident => iteration bz_stream | OnDemand => iteration_mem bz_stream end.

Definition main_of (bz_stream : bytes → bytes) (p : pipeline) :=
  match p with Resident => main bz_stream | OnDemand => main_mem bz_stream end.

(** The bytes a pipeline takes the blocks from. *)
Definition source_of (p : pipeline) (ctx : context) (F : gmap string bytes) : bytes :=
  match p with
  | Resident => file_data ctx
  | OnDemand => default [] (F !! input_filename ctx)
  end.

(** The compressed stream of block [i]. *)
Definition block_payload (bz_stream : bytes → bytes) (p : pipeline) (ctx : context)
    (F : gmap string bytes) (i : nat) : bytes :=
  bz_stream (block_input (source_of p ctx F) (BLOCK_SIZE ctx) (file_size ctx) i).

(** What the parallel phase has done when it returns: the trace has gained
    one [EvIteration] per element of [order], in that order, and no write;
    [compression_errors] counts the iterations that failed; the entry of a
    failed iteration has a [NULL] pointer, the entry of any other one
    describes the compressed block. *)
Definition phase_summary (P : nat → bytes) (order : list nat)
    (s0 s : loop_state) : Prop :=
  ∃ flags t,
    length flags = length order
    ∧ env s = {| files := files (env s0); trace := trace (env s0) ++ t |}
    ∧ iterations t = zip order flags
    ∧ Forall (λ e, is_open_write e = false) t
    ∧ compression_errors s = failed_count flags
    ∧ (∀ k i f, order !! k = Some i → flags !! k = Some f →
         ∃ b, compressed_blocks s !! i = Some b
              ∧ (f = true → data b = None)
              ∧ (f = false → good_entry (mem s) (P i) b)).

(** Entry [b] points to a live buffer that holds [P], and [size] is its
    length: a successfully compressed block. *)
Definition holds (h : heap) (b : CompressedBlock) (P : bytes) : Prop :=
  ∃ a, data b = Some a ∧ cells h !! a = Some P ∧ size b = Z.of_nat (length P).

(** The [fwrite] for block [i] is not cut short. *)
Definition full_write (limit : nat → option Z) (i : nat) (b : CompressedBlock) : Prop :=
  match limit i with None => True | Some k => size b ≤ Z.max 0 k end.

Global Instance full_write_dec limit i b : Decision (full_write limit i b).
Proof. unfold full_write. destruct (limit i); apply _. Defined.

(** What the output file is expected to hold, as a function of the bytes of
    the input and of [BLOCK_SIZE] alone. *)
Definition expected_output (bz_stream : bytes → bytes) (content : bytes)
    (BLOCK_SIZE : Z) : bytes :=
  let file_size := Z.of_nat (length content) in
  match num_blocks_of file_size BLOCK_SIZE with
  | Some n =>
      concat ((λ i, bz_stream (block_input content BLOCK_SIZE file_size i)) <$> loop_indices n)
  | None => []
  end.

(** Every file has a size that [stat] can report: it fits [off_t]. *)
Definition sizes_fit (w : world) : Prop :=
  ∀ path content, files w !! path = Some content → Z.of_nat (length content) < 2 ^ 63.

(** An environment in which nothing fails. *)
Definition fault_free (o : oracle) : Prop :=
  (∀ site, alloc_ok o site = true)
  ∧ (∀ st, open_ok o st = true)
  ∧ (∀ st, read_limit o st = None)
  ∧ (∀ i, block_env o i = no_fault)
  ∧ output_open_ok o = true
  ∧ (∀ i, write_limit o i = None).

(** The promise of the bzlib manual: a buffer one percent larger than the
    input, plus 600 bytes, is large enough for the compressed stream. *)
Definition bz_fits (bz_stream : bytes → bytes) : Prop :=
  ∀ src, Z.of_nat (length src) < 2 ^ 31 →
    Z.of_nat (length (bz_stream src))
    ≤ Z.of_nat (length src) + Z.of_nat (length src) / 100 + 600.

(** A run whose sizes keep the 32-bit arithmetic of the block plan from
    wrapping around. *)
Definition in_range (ctx : context) : Prop :=
  0 ≤ file_size ctx
  ∧ 2 ≤ BLOCK_SIZE ctx < 2 ^ 31
  ∧ file_size ctx + BLOCK_SIZE ctx ≤ 2 ^ 32
  ∧ num_blocks ctx = (file_size ctx + BLOCK_SIZE ctx - 1) / BLOCK_SIZE ctx.

(** The heap holds the buffers the table points to and no others. *)
Definition heap_tight (h : heap) (blocks : list CompressedBlock) : Prop :=
  ∀ a, is_Some (cells h !! a) ↔ ∃ i b, blocks !! i = Some b ∧ data b = Some a.

(** Reading the trace: a diagnostic of [main], the opening of a file for
    reading. *)
Definition is_diag (e : event) : bool :=
  match e with EvDiag _ => true | _ => false end.

Definition is_open_read (e : event) : bool :=
  match e with EvOpenRead _ => true | _ => false end.

(** An event that is neither a diagnostic nor the opening of the output. *)
Definition quiet (e : event) : Prop := is_diag e = false ∧ is_open_write e = false.

(** The events of a pipeline up to its parallel loop, and those of one
    iteration of the loop. *)
Definition startup_events (p : pipeline) (ctx : context) : list event :=
  match p with
  | Resident => [EvOpenRead (input_filename ctx); EvStat (input_filename ctx)]
  | OnDemand => [EvStat (input_filename ctx)]
  end.

Definition iteration_events (p : pipeline) (ctx : context) (i : nat) (failed : bool)
    : list event :=
  match p with
  | Resident => [EvIteration i failed]
  | OnDemand => [EvOpenRead (input_filename ctx); EvIteration i failed]
  end.

Definition loop_events (p : pipeline) (ctx : context) (order : list nat)
    (flags : list bool) : list event :=
  concat (zip_with (iteration_events p ctx) order flags).

(** * A test environment

    A stand-in for bzlib that stores its input behind a two-byte header, an
    environment in which nothing fails and one in which an allocation does,
    and small file systems, tables and command lines. *)

Definition store_stream (source : bytes) : bytes := Byte.x42 :: Byte.x5a :: source.

Definition calm : oracle :=
  {| alloc_ok := λ _, true;
     open_ok := λ _, true;
     read_limit := λ _, None;
     block_env := λ _, no_fault;
     output_open_ok := true;
     write_limit := λ _, None |}.

(** A second environment: the allocation inside [compress_block] fails for
    block 0. *)
Definition faulty : oracle :=
  {| alloc_ok := λ _, true;
     open_ok := λ _, true;
     read_limit := λ _, None;
     block_env := λ i, match i with
                       | O => {| malloc_ok := false; bz_gives_up := None; realloc_ok := true |}
                       | _ => no_fault
                       end;
     output_open_ok := true;
     write_limit := λ _, None |}.

Definition sample_world : world :=
  {| files := {[ "in" := [Byte.x61; Byte.x62; Byte.x63] ]}; trace := [] |}.

Definition plain_run : cmdline := {| options := []; operands := ["in"; "out"] |}.

(** A file of 2,560 bytes, to be compressed in blocks of 1 KB. *)
Definition big_world : world :=
  {| files := {[ "big" := replicate 2560 Byte.x61 ]}; trace := [] |}.

Definition small_blocks : cmdline :=
  {| options := [OptB 1]; operands := ["big"; "out"] |}.

Definition sample_heap : heap :=
  {| next_addr := 2;
     cells := {[ 0%nat := [Byte.x01]; 1%nat := [Byte.x02; Byte.x03] ]} |}.

Definition sample_table : list CompressedBlock :=
  [ {| data := Some 0%nat; size := 1; original_size := 5 |};
    {| data := Some 1%nat; size := 2; original_size := 4 |} ].

(** A second stand-in for bzlib, whose streams can be told apart when they
    are laid end to end: every byte of the input behind a [01], then a
    [00]; and the decoder that goes with it. *)
Definition framed_stream (source : bytes) : bytes :=
  flat_map (λ b, [Byte.x01; b]) source ++ [Byte.x00].

Fixpoint unframe (stream : bytes) : bytes :=
  match stream with
  | Byte.x01 :: b :: rest => b :: unframe rest
  | Byte.x00 :: rest => unframe rest
  | _ => []
  end.

(** A third environment: the final [realloc] of [compress_block] fails. *)
Definition forgetful : oracle :=
  {| alloc_ok := λ _, true;
     open_ok := λ _, true;
     read_limit := λ _, None;
     block_env := λ _, {| malloc_ok := true; bz_gives_up := None; realloc_ok := false |};
     output_open_ok := true;
     write_limit := λ _, None |}.

(** A file system with an empty file, and a block size whose product with
    1024 is 0 in 32 bits. *)
Definition empty_world : world := {| files := {[ "in" := [] ]}; trace := [] |}.

Definition huge_blocks : cmdline :=
  {| options := [OptB 4194304]; operands := ["in"; "out"] |}.

(** * Properties *)

(** ** Machine integers *)

Lemma to_uint_to_int z : to_uint (to_int z) = to_uint z.
Proof.
  unfold to_uint, to_int.
  rewrite Zminus_mod_idemp_l.
  f_equal. lia.
Qed.

Lemma to_uint_to_long z : to_uint (to_long z) = to_uint z.
Proof.
  unfold to_uint, to_long.
  replace (2 ^ 64) with (2 ^ 32 * 2 ^ 32) by reflexivity.
  rewrite <- (Z.add_0_r ((z + 2 ^ 63) mod (2 ^ 32 * 2 ^ 32) - 2 ^ 63)).
  rewrite Z.rem_mul_r by lia.
  replace ((z + 2 ^ 63) mod 2 ^ 32 + 2 ^ 32 * ((z + 2 ^ 63) / 2 ^ 32 mod 2 ^ 32) - 2 ^ 63 + 0)
    with ((z + 2 ^ 63) mod 2 ^ 32 + (((z + 2 ^ 63) / 2 ^ 32 mod 2 ^ 32) - 2 ^ 31) * 2 ^ 32) by lia.
  rewrite Z_mod_plus_full, Z.mod_mod by lia.
  replace (z + 2 ^ 63) with (z + 2 ^ 31 * 2 ^ 32) by lia.
  apply Z_mod_plus_full.
Qed.

Lemma to_uint_small z : 0 ≤ z < 2 ^ 32 → to_uint z = z.
Proof. intros. unfold to_uint. apply Z.mod_small. lia. Qed.

Lemma to_int_small z : - 2 ^ 31 ≤ z < 2 ^ 31 → to_int z = z.
Proof. intros. unfold to_int. rewrite Z.mod_small; lia. Qed.

Lemma to_long_small z : - 2 ^ 63 ≤ z < 2 ^ 63 → to_long z = z.
Proof. intros. unfold to_long. rewrite Z.mod_small; lia. Qed.

(** The two programs compute the same offsets. *)
Lemma block_offset_mem_eq i BS : block_offset_mem i BS = block_offset i BS.
Proof. unfold block_offset_mem, block_offset. by rewrite to_uint_to_long, to_uint_to_int. Qed.

Lemma block_range_mem_eq i BS fs : block_range_mem i BS fs = block_range i BS fs.
Proof. unfold block_range_mem, block_range. by rewrite block_offset_mem_eq. Qed.

(** ** The team of threads *)

Section Pool.

Implicit Types (p : pool) (l : list (option nat)).

Lemma busy_claim l t x :
  l !! t = Some None → omap id (<[t := Some x]> l) ≡ₚ x :: omap id l.
Proof.
  revert t. induction l as [|r l IH]; intros [|t] Ht; simplify_eq/=; try done.
  destruct r as [y|]; simpl; rewrite IH by done; [apply Permutation_swap | done].
Qed.

Lemma busy_finish l t i :
  l !! t = Some (Some i) → omap id l ≡ₚ i :: omap id (<[t := None]> l).
Proof.
  revert t. induction l as [|r l IH]; intros [|t] Ht; simplify_eq/=; try done.
  destruct r as [y|]; simpl; rewrite (IH t) by done; [apply Permutation_swap | done].
Qed.

Lemma busy_idle l : Forall (λ r, r = None) l → omap id l = [].
Proof. induction 1 as [|r l -> _ IH]; simpl; auto. Qed.

Lemma pool_inv_init n nthreads : pool_inv n (pool_init nthreads).
Proof.
  split; simpl; [lia|].
  rewrite busy_idle; [done | apply Forall_replicate; done].
Qed.

Lemma pool_inv_step n p q : pool_step n p q → pool_inv n p → pool_inv n q.
Proof.
  intros Hstep [Hle Hperm].
  destruct Hstep as [t p Ht Hlt | t i p Ht]; split;
    cbn [next_index in_flight finished]; try lia.
  - rewrite busy_claim by done. rewrite seq_S. cbn [Nat.add].
    rewrite <- Hperm. rewrite <- Permutation_middle.
    apply Permutation_cons_append.
  - rewrite <- Hperm. rewrite (busy_finish (in_flight p) t i) by done.
    rewrite <- app_assoc. reflexivity.
Qed.

Lemma pool_inv_rtc n p q : rtc (pool_step n) p q → pool_inv n p → pool_inv n q.
Proof. induction 1; eauto using pool_inv_step. Qed.

Lemma pool_step_threads n p q :
  pool_step n p q → length (in_flight q) = length (in_flight p).
Proof. destruct 1; simpl; by rewrite length_insert. Qed.

(** Every order a team can produce runs each iteration exactly once. *)
Lemma omp_for_permutation nthreads n order :
  omp_for nthreads n order → order ≡ₚ seq 0 n.
Proof.
  intros (p & Hrtc & [Hn Hidle] & <-).
  destruct (pool_inv_rtc _ _ _ Hrtc (pool_inv_init n nthreads)) as [_ Hperm].
  rewrite busy_idle, app_nil_r, Hn in Hperm; done.
Qed.

(** One thread after the other: a team of at least one thread can run the
    loop to its end. *)
Lemma pool_sequential nthreads n k :
  (0 < nthreads)%nat → (k ≤ n)%nat →
  rtc (pool_step n) (pool_init nthreads)
      {| next_index := k; in_flight := replicate nthreads None; finished := seq 0 k |}.
Proof.
  intros Hth. induction k as [|k IH]; intros Hk; [apply rtc_refl|].
  eapply rtc_trans; [apply IH; lia|].
  eapply rtc_l; [apply (step_claim n 0); cbn [next_index in_flight]; [|lia]|].
  { apply lookup_replicate_2. done. }
  eapply rtc_l; [apply (step_finish n 0 k); cbn [next_index in_flight]|].
  { apply list_lookup_insert_eq. rewrite length_replicate. done. }
  cbn [next_index in_flight finished].
  rewrite list_insert_insert_eq, list_insert_id, seq_S; [apply rtc_refl|].
  apply lookup_replicate_2. done.
Qed.

Lemma omp_for_sequential nthreads n :
  (0 < nthreads)%nat → omp_for nthreads n (seq 0 n).
Proof.
  intros Hth. eexists. split; [apply (pool_sequential nthreads n n); [done|lia]|].
  split; [split; simpl; [done | by apply Forall_replicate] | done].
Qed.

(** A team that has not reached the barrier can take a step ... *)
Lemma pool_progress n p :
  (0 < length (in_flight p))%nat → pool_inv n p → ¬ pool_done n p → ∃ q, pool_step n p q.
Proof.
  intros Hth [Hle _] Hnot.
  destruct (decide (Forall (λ r, r = None) (in_flight p))) as [Hidle|Hbusy].
  - assert (next_index p < n)%nat as Hlt.
    { destruct (decide (next_index p = n)); [|lia]. destruct Hnot. done. }
    destruct (in_flight p) as [|r l] eqn:E; simpl in Hth; [lia|].
    eexists. apply (step_claim n 0); [|done].
    rewrite E. inversion Hidle; subst. reflexivity.
  - apply not_Forall_Exists in Hbusy; [|intros r; apply _].
    apply Exists_exists in Hbusy as (r & Hin & Hr).
    apply list_elem_of_lookup in Hin as [t Ht].
    destruct r as [i|]; [|by destruct Hr].
    eexists. by apply (step_finish n t i).
Qed.

(** ... and every step brings the barrier closer: the loop terminates. *)
Lemma pool_step_measure n p q :
  pool_step n p q → (pool_measure n q < pool_measure n p)%nat.
Proof.
  unfold pool_measure. destruct 1 as [t p Ht Hlt | t i p Ht]; simpl.
  - rewrite (Permutation_length (busy_claim _ t _ Ht)). simpl. lia.
  - rewrite (Permutation_length (busy_finish _ t i Ht)). simpl. lia.
Qed.

Lemma pool_rtc_threads n p q :
  rtc (pool_step n) p q → length (in_flight q) = length (in_flight p).
Proof.
  induction 1 as [|p q r Hstep _ IH]; [done|]. by rewrite IH, (pool_step_threads n p q).
Qed.

Lemma pool_no_thread_no_step n p q : in_flight p = [] → ¬ pool_step n p q.
Proof. intros Hnil Hstep. destruct Hstep as [t p Ht _|t i p Ht]; by rewrite Hnil in Ht. Qed.

(** Where a team can run the loop to its end, it never gets stuck on the
    way, and it cannot go on for ever. *)
Lemma pool_never_stuck nthreads n order p :
  omp_for nthreads n order →
  rtc (pool_step n) (pool_init nthreads) p →
  ¬ pool_done n p →
  ∃ q, pool_step n p q ∧ (pool_measure n q < pool_measure n p)%nat.
Proof.
  intros (pf & Hrun & Hdone & _) Hp Hnot.
  destruct nthreads as [|k].
  - exfalso. apply Hnot.
    assert (∀ q, rtc (pool_step n) (pool_init 0) q → q = pool_init 0) as Hinit.
    { intros q Hq. inversion Hq as [|q1 q2 q3 Hstep _]; [done|].
      by apply pool_no_thread_no_step in Hstep. }
    by rewrite (Hinit p Hp), <- (Hinit pf Hrun).
  - destruct (pool_progress n p) as [q Hq]; [|by eapply pool_inv_rtc, pool_inv_init|done|].
    + rewrite (pool_rtc_threads _ _ _ Hp). simpl. rewrite length_replicate. lia.
    + exists q. split; [done|]. by apply pool_step_measure.
Qed.

End Pool.

(** ** The heap and [compress_block] *)

Lemma heap_wf_empty : heap_wf empty_heap.
Proof. intros a [x Hx]. simpl in Hx. by rewrite lookup_empty in Hx. Qed.

Lemma heap_wf_fresh h : heap_wf h → cells h !! next_addr h = None.
Proof.
  intros Hwf. destruct (cells h !! next_addr h) eqn:E; [|done].
  specialize (Hwf (next_addr h)). rewrite E in Hwf. specialize (Hwf (mk_is_Some _ _ eq_refl)). lia.
Qed.

Section CompressBlock.

Variable bz_stream : bytes → bytes.

Lemma bz_code_not_ok f : bz_code f ≠ BZ_OK.
Proof. by destruct f. Qed.

(** The four ways through [compress_block]. *)
Lemma compress_block_spec e input n output h :
  heap_wf h →
  ∃ h', heap_wf h'
    ∧ (next_addr h ≤ next_addr h')%nat
    ∧ (∀ a, (a < next_addr h)%nat → cells h' !! a = cells h !! a)
    ∧ ((malloc_ok e = false
        ∧ compress_block bz_stream e input n output h
          = Some (-1, {| data := None; size := size output;
                         original_size := original_size output |}, h'))
       ∨ (malloc_ok e = true ∧ ¬ bz_succeeds bz_stream e input n
          ∧ compress_block bz_stream e input n output h
            = Some (-1, {| data := None; size := output_buffer_size n;
                           original_size := n |}, h'))
       ∨ (malloc_ok e = true ∧ bz_succeeds bz_stream e input n ∧ realloc_ok e = true
          ∧ compress_block bz_stream e input n output h
            = Some (0, {| data := Some (next_addr h);
                          size := Z.of_nat (length (bz_stream input));
                          original_size := n |}, h')
          ∧ cells h' !! next_addr h = Some (bz_stream input))
       ∨ (malloc_ok e = true ∧ bz_succeeds bz_stream e input n ∧ realloc_ok e = false
          ∧ compress_block bz_stream e input n output h
            = Some (0, {| data := None;
                          size := Z.of_nat (length (bz_stream input));
                          original_size := n |}, h'))).
Proof.
  intros Hwf. pose proof (heap_wf_fresh h Hwf) as Hfresh.
  unfold compress_block, malloc, BZ2_bzBuffToBuffCompress, realloc, free, bz_succeeds.
  destruct (malloc_ok e).
  2:{ exists h. split_and!; auto. }
  cbn [cells next_addr]. rewrite lookup_insert_eq. cbn [mbind option_bind].
  destruct (bz_gives_up e) as [f|].
  - cbn [mbind option_bind]. rewrite decide_True by apply bz_code_not_ok.
    cbn [cells next_addr]. rewrite lookup_insert_eq. cbn [mbind option_bind].
    eexists. split_and!;
      [| | |right; left; split_and!; [done|by intros [? _]|reflexivity]].
    + intros a [x Hx]. cbn [cells next_addr] in *.
      apply lookup_delete_Some in Hx as [? Hx]. rewrite lookup_insert_ne in Hx by done.
      specialize (Hwf a (mk_is_Some _ _ Hx)). lia.
    + cbn. lia.
    + intros a Ha. cbn [cells]. rewrite lookup_delete_ne, lookup_insert_ne by lia. done.
  - destruct (decide (Z.of_nat (length (bz_stream input)) ≤ output_buffer_size n)) as [Hfit|Hfit].
    + cbn [mbind option_bind]. rewrite decide_False by (unfold BZ_OK; lia).
      cbn [cells next_addr]. rewrite lookup_insert_eq. cbn [mbind option_bind].
      rewrite Nat2Z.id, take_app3_length, !insert_insert_eq.
      destruct (realloc_ok e).
      * eexists. split_and!;
          [| | |right; right; left; split_and!; [done|done|done|done|reflexivity|]].
        -- intros a [x Hx]. cbn [cells next_addr] in *.
           apply lookup_insert_Some in Hx as [[<- _]|[? Hx]]; [lia|].
           specialize (Hwf a (mk_is_Some _ _ Hx)). lia.
        -- cbn. lia.
        -- intros a Ha. cbn [cells]. rewrite lookup_insert_ne by lia. done.
        -- cbn [cells]. apply lookup_insert_eq.
      * eexists. split_and!;
          [| | |right; right; right; split_and!; [done|done|done|done|reflexivity]].
        -- intros a [x Hx]. cbn [cells next_addr] in *.
           apply lookup_insert_Some in Hx as [[<- _]|[? Hx]]; [lia|].
           specialize (Hwf a (mk_is_Some _ _ Hx)). lia.
        -- cbn. lia.
        -- intros a Ha. cbn [cells]. rewrite lookup_insert_ne by lia. done.
    + cbn [mbind option_bind]. rewrite decide_True by done.
      cbn [cells next_addr]. rewrite lookup_insert_eq. cbn [mbind option_bind].
      eexists. split_and!;
        [| | |right; left; split_and!; [done|by intros [_ ?]|reflexivity]].
      * intros a [x Hx]. cbn [cells next_addr] in *.
        apply lookup_delete_Some in Hx as [? Hx]. rewrite lookup_insert_ne in Hx by done.
        specialize (Hwf a (mk_is_Some _ _ Hx)). lia.
      * cbn. lia.
      * intros a Ha. cbn [cells]. rewrite lookup_delete_ne, lookup_insert_ne by lia. done.
Qed.

End CompressBlock.

(** ** The table of compressed blocks *)

Lemma table_ok_zero h n : table_ok h (replicate n zero_block).
Proof.
  split.
  - intros i b a [-> _]%lookup_replicate. done.
  - intros i j bi bj a [-> _]%lookup_replicate. done.
Qed.

Lemma loop_inv_initial n w : (0 ≤ n) → loop_inv (Z.to_nat n) (initial_state n w).
Proof.
  intros Hn. split_and!; simpl.
  - apply heap_wf_empty.
  - apply length_replicate.
  - apply table_ok_zero.
Qed.

(** [free] is defined on live pointers, and [cleanup_blocks] on a table whose
    pointers are live and distinct. *)
Lemma cleanup_loop_safe indices blocks h :
  NoDup indices →
  (∀ i, i ∈ indices → is_Some (blocks !! i)) →
  (∀ i b a, i ∈ indices → blocks !! i = Some b → data b = Some a → is_Some (cells h !! a)) →
  (∀ i j bi bj a, blocks !! i = Some bi → blocks !! j = Some bj →
     data bi = Some a → data bj = Some a → i = j) →
  is_Some (cleanup_loop indices blocks h).
Proof.
  intros Hnd Hin Hlive Halias. revert h Hlive.
  induction Hnd as [|i rest Hi Hnd IH]; intros h Hlive; simpl; [by eexists|].
  destruct (Hin i) as [b Hb]; [left|]. rewrite Hb. cbn [mbind option_bind].
  assert (∀ j, j ∈ rest → is_Some (blocks !! j)) as Hin' by (intros; apply Hin; by right).
  destruct (data b) as [a|] eqn:Ha.
  - destruct (Hlive i b a) as [buf Hbuf]; [left|done|done|].
    unfold free. rewrite Hbuf. cbn [mbind option_bind].
    apply IH; [done|]. intros j bj aj Hj Hbj Haj. cbn [cells].
    rewrite lookup_delete_ne; [apply (Hlive j bj aj); [by right|done|done]|].
    intros <-. assert (i = j) as -> by eauto. done.
  - cbn [mbind option_bind]. apply IH; [done|]. intros j bj aj Hj. apply Hlive. by right.
Qed.

Lemma cleanup_blocks_safe n s :
  loop_inv (Z.to_nat n) s →
  is_Some (cleanup_blocks (compressed_blocks s) n (mem s)).
Proof.
  intros (Hwf & Hlen & Hlive & Halias). unfold cleanup_blocks, loop_indices.
  apply cleanup_loop_safe; [apply NoDup_seq| |by eauto|done].
  intros i Hi%elem_of_seq. apply lookup_lt_is_Some. lia.
Qed.

Section LoopInvariant.

Variable bz_stream : bytes → bytes.

(** Storing the outcome of [compress_block] into entry [i] keeps the table
    in order: a new pointer is fresh. *)
Lemma compress_insert_inv e input n i h blocks output r b h' :
  heap_wf h → table_ok h blocks →
  compress_block bz_stream e input n output h = Some (r, b, h') →
  heap_wf h' ∧ table_ok h' (<[i := b]> blocks).
Proof.
  intros Hwf [Hlive Halias] Hcb.
  destruct (compress_block_spec bz_stream e input n output h Hwf)
    as (h2 & Hwf2 & Hmono & Hframe & Hcases).
  assert (h2 = h' ∧ (data b = None ∨ (data b = Some (next_addr h)
            ∧ is_Some (cells h' !! next_addr h)))) as [-> Hdata].
  { destruct Hcases as [(_ & E)|[(_ & _ & E)|[(_ & _ & _ & E & Hc)|(_ & _ & _ & E)]]];
      rewrite Hcb in E; simplify_eq; simpl; eauto. }
  split; [done|]. split.
  - intros j bj a Hj Ha.
    destruct (decide (i = j)) as [<-|Hne].
    + apply list_lookup_insert_Some in Hj as [(_ & <- & _)|[? _]]; [|done].
      destruct Hdata as [Hd|[Hd Hl]]; congruence.
    + rewrite list_lookup_insert_ne in Hj by done.
      destruct (Hlive j bj a Hj Ha) as [x Hx].
      rewrite Hframe; [by eexists|]. apply Hwf. by eexists.
  - assert (∀ j bj a, i ≠ j → blocks !! j = Some bj → data bj = Some a →
              data b = Some a → False) as Hfresh.
    { intros j bj a Hne Hj Ha Hb.
      destruct Hdata as [Hd|[Hd _]]; [congruence|].
      assert (a = next_addr h) as -> by congruence.
      specialize (Hwf _ (Hlive j bj _ Hj Ha)). lia. }
    intros j k bj bk a Hj Hk Haj Hak.
    destruct (decide (j = k)) as [|Hjk]; [done|exfalso].
    destruct (decide (i = j)) as [<-|Hij].
    + apply list_lookup_insert_Some in Hj as [(_ & <- & _)|[? _]]; [|done].
      rewrite list_lookup_insert_ne in Hk by done. eauto.
    + rewrite list_lookup_insert_ne in Hj by done.
      destruct (decide (i = k)) as [<-|Hik].
      * apply list_lookup_insert_Some in Hk as [(_ & <- & _)|[? _]]; [|done]. eauto.
      * rewrite list_lookup_insert_ne in Hk by done. eauto.
Qed.

Lemma iteration_inv o ctx n i s s' :
  loop_inv n s → iteration bz_stream o ctx i s = Some s' → loop_inv n s'.
Proof.
  intros (Hwf & Hlen & Htab) Hit. unfold iteration in Hit.
  destruct (read_at _ _ _) as [input|]; [|done]. cbn [mbind option_bind] in Hit.
  destruct (compressed_blocks s !! i) as [output|]; [|done]. cbn [mbind option_bind] in Hit.
  destruct (compress_block _ _ _ _ _ _) as [[[r b] h']|] eqn:Hcb; [|done].
  cbn [mbind option_bind] in Hit. simplify_eq.
  destruct (compress_insert_inv _ _ _ i _ _ _ _ _ _ Hwf Htab Hcb) as [Hwf' Htab'].
  split_and!; simpl; [done|by rewrite length_insert|done].
Qed.

Lemma iteration_mem_inv o ctx n i s s' :
  loop_inv n s → iteration_mem bz_stream o ctx i s = Some s' → loop_inv n s'.
Proof.
  intros (Hwf & Hlen & Htab) Hit. unfold iteration_mem, fopen_read in Hit.
  destruct (if open_ok o (BlockStream i) then _ else _) as [content|];
    [|by simplify_eq].
  destruct (negb _); [by simplify_eq|].
  destruct (decide _); [by simplify_eq|].
  destruct (compressed_blocks s !! i) as [output|]; [|done]. cbn [mbind option_bind] in Hit.
  destruct (compress_block _ _ _ _ _ _) as [[[r b] h']|] eqn:Hcb; [|done].
  cbn [mbind option_bind] in Hit. simplify_eq.
  destruct (compress_insert_inv _ _ _ i _ _ _ _ _ _ Hwf Htab Hcb) as [Hwf' Htab'].
  split_and!; simpl; [done|by rewrite length_insert|done].
Qed.

Lemma run_iterations_inv (P : loop_state → Prop) body order s s' :
  (∀ i s s', P s → body i s = Some s' → P s') →
  P s → run_iterations body order s = Some s' → P s'.
Proof.
  intros Hbody. revert s. induction order as [|i rest IH]; intros s Hs Hrun; simpl in Hrun.
  - by simplify_eq.
  - destruct (body i s) as [s1|] eqn:E; [|done]. cbn [mbind option_bind] in Hrun. eauto.
Qed.

End LoopInvariant.

(** ** The command line *)

Lemma getopt_loop_positive opts k kb :
  getopt_loop opts k = inr kb → 0 < k → 0 < kb.
Proof.
  revert k. induction opts as [|[v|] opts IH]; intros k Hloop Hk; simpl in Hloop.
  - by simplify_eq.
  - destruct (decide (v ≤ 0)); [done|]. apply (IH v); [done|lia].
  - done.
Qed.

Lemma configure_inr c kb i out :
  configure c = inr (kb, i, out) → 0 < kb ∧ operands c = [i; out].
Proof.
  unfold configure. destruct (getopt_loop (options c) 900) as [d|k] eqn:E; [done|].
  destruct (operands c) as [|i' [|out' [|]]]; try done.
  intros [= -> -> ->]. split; [|done]. by apply (getopt_loop_positive _ _ _ E).
Qed.

(** A [-b] with a non-positive argument stops the loop, unless an option
    that [getopt] does not know has stopped it before. *)
Lemma getopt_loop_rejects opts v k :
  OptB v ∈ opts → v ≤ 0 →
  ∃ d, getopt_loop opts k = inl d
       ∧ (d = InvalidBlockSize ∨ d = Usage)
       ∧ (OptOther ∉ opts → d = InvalidBlockSize).
Proof.
  intros Hin Hv. revert k. induction opts as [|x opts IH]; intros k.
  - by apply elem_of_nil in Hin.
  - destruct x as [v'|]; simpl.
    + destruct (decide (v' ≤ 0)) as [|Hpos]; [by eauto|].
      apply elem_of_cons in Hin as [[= ->]|Hin]; [done|].
      destruct (IH Hin v') as (d & -> & Hd & Hb). exists d. split_and!; [done|done|].
      intros Hno. apply Hb. intros ?. apply Hno. by right.
    + exists Usage. split_and!; [done|by right|]. intros []. by left.
Qed.

(** C8: a [-b] whose argument is not positive ends both programs with exit
    status 1 before anything else has happened: the trace has gained one
    diagnostic only (no [stat], no [fopen]) and the files are as they were.
    The diagnostic is "Invalid block size", unless the command line also has an
    option that [getopt] does not know.  On the other hand a single [-b k]
    with [k] positive followed by two operands passes the configuration
    checks, with [k] as the block size. *)
Theorem invalid_block_size_fails_before_io
    (bz_stream : bytes → bytes) (o : oracle) (order : list nat)
    (c : cmdline) (w : world) (v : Z) :
  OptB v ∈ options c →
  v ≤ 0 →
  ∃ d, (d = InvalidBlockSize ∨ d = Usage)
    ∧ (OptOther ∉ options c → d = InvalidBlockSize)
    ∧ main bz_stream o order c w = Some (1, log (EvDiag d) w)
    ∧ main_mem bz_stream o order c w = Some (1, log (EvDiag d) w)
    ∧ files (log (EvDiag d) w) = files w
    ∧ trace (log (EvDiag d) w) = trace w ++ [EvDiag d]
    ∧ (∀ k i out, 0 < k →
         configure {| options := [OptB k]; operands := [i; out] |} = inr (k, i, out)).
Proof.
  intros Hin Hv.
  destruct (getopt_loop_rejects (options c) v 900 Hin Hv) as (d & Hloop & Hd & Hb).
  assert (configure c = inl d) as Hconf by (unfold configure; by rewrite Hloop).
  exists d. split_and!; [done|done| | |done|done|].
  - unfold main, startup. by rewrite Hconf.
  - unfold main_mem, startup_mem. by rewrite Hconf.
  - intros k i out Hk. unfold configure. simpl. by rewrite decide_False by lia.
Qed.

Lemma invalid_block_size_fails_before_io_witness :
  main store_stream calm [] {| options := [OptB 64; OptB 0]; operands := ["in"; "out"] |}
       sample_world
  = Some (1, log (EvDiag InvalidBlockSize) sample_world).
Proof.
  destruct (invalid_block_size_fails_before_io store_stream calm []
              {| options := [OptB 64; OptB 0]; operands := ["in"; "out"] |}
              sample_world 0) as (d & _ & Hd & Hmain & _).
  - right. left.
  - lia.
  - rewrite Hmain, Hd; [reflexivity|].
    intros Hin. repeat (apply elem_of_cons in Hin as [Hin|Hin]; [discriminate|]).
    by apply elem_of_nil in Hin.
Defined.

(** ** One iteration of the parallel loop *)

(** The [continue] paths of the on-demand loop. *)
Lemma continue_post n P i s path :
  loop_inv n s → (i < n)%nat →
  iteration_post n P i s
    (end_iteration i true (compressed_blocks s) (mem s) (log (EvOpenRead path) (env s)) s).
Proof.
  intros Hinv Hi.
  destruct (lookup_lt_is_Some_2 (compressed_blocks s) i) as [output Hout].
  { destruct Hinv as (_ & -> & _). done. }
  exists true, [EvOpenRead path], output. unfold end_iteration, log.
  cbn [env compression_errors mem compressed_blocks files trace].
  rewrite <- app_assoc. split_and!; try done.
  - by repeat constructor.
  - by rewrite list_insert_id.
  - intros _ Hz. rewrite Hz in Hout. by simplify_eq.
Qed.

Section Iteration.

Variable bz_stream : bytes → bytes.

(** After a call of [compress_block] on [input]. *)
Lemma compress_block_entry e input n output h r b h' :
  heap_wf h →
  compress_block bz_stream e input n output h = Some (r, b, h') →
  (r = 0 ∨ r = -1)
  ∧ (r ≠ 0 → data b = None)
  ∧ (r = 0 → good_entry h' (bz_stream input) b)
  ∧ (next_addr h ≤ next_addr h')%nat
  ∧ (∀ a, (a < next_addr h)%nat → cells h' !! a = cells h !! a).
Proof.
  intros Hwf Hcb.
  destruct (compress_block_spec bz_stream e input n output h Hwf)
    as (h2 & Hwf2 & Hmono & Hframe & Hcases).
  destruct Hcases as [(_ & E)|[(_ & _ & E)|[(_ & _ & _ & E & Hc)|(_ & _ & _ & E)]]];
    rewrite Hcb in E; simplify_eq; (split_and!; [auto|done|intros ?|done|done]);
    try done; split; simpl; eauto.
Qed.

Lemma iteration_meets_spec o ctx n F :
  iteration_spec n F
    (λ i, bz_stream (block_input (file_data ctx) (BLOCK_SIZE ctx) (file_size ctx) i))
    (iteration bz_stream o ctx).
Proof.
  intros i s s' Hinv _ Hi Hit.
  pose proof (iteration_inv _ _ _ _ _ _ _ Hinv Hit) as Hinv'.
  destruct Hinv as (Hwf & Hlen & Htab). unfold iteration in Hit.
  unfold read_at in Hit. destruct (decide _) as [Hin|]; [|done].
  cbn [mbind option_bind] in Hit.
  destruct (compressed_blocks s !! i) as [output|] eqn:Hout; [|done].
  cbn [mbind option_bind] in Hit.
  destruct (compress_block _ _ _ _ _ _) as [[[r b] h']|] eqn:Hcb; [|done].
  cbn [mbind option_bind] in Hit. simplify_eq.
  destruct (compress_block_entry _ _ _ _ _ _ _ _ Hwf Hcb) as (Hr & Hfail & Hok & Hmono & Hframe).
  exists (bool_decide (r ≠ 0)), [], b. cbn [env compression_errors mem compressed_blocks].
  split_and!; try done.
  - intros Hf%bool_decide_eq_true _. auto.
  - intros Hf%bool_decide_eq_false. apply Hok. by apply dec_stable.
Qed.

(** A read that returns [block_size] bytes returns the bytes of the block. *)
Lemma fread_full limit content pos n :
  0 ≤ n →
  Z.of_nat (length (fread limit content pos n)) = n →
  fread limit content pos n = take (Z.to_nat n) (drop (Z.to_nat pos) content).
Proof.
  intros Hn. unfold fread. destruct limit as [k|]; [|done].
  set (l := take (Z.to_nat n) (drop (Z.to_nat pos) content)).
  intros Hlen. apply take_ge.
  assert (length l ≤ Z.to_nat n)%nat by (unfold l; rewrite length_take; lia).
  rewrite length_take in Hlen. lia.
Qed.

Lemma block_length_nonneg offset BS fs : 0 ≤ block_length offset BS fs.
Proof.
  unfold block_length, to_uint. destruct (decide _); apply Z.mod_pos_bound; lia.
Qed.

Lemma iteration_mem_meets_spec o ctx n F :
  iteration_spec n F
    (λ i, bz_stream (block_input (default [] (F !! input_filename ctx))
                       (BLOCK_SIZE ctx) (file_size ctx) i))
    (iteration_mem bz_stream o ctx).
Proof.
  intros i s s' Hinv HF Hi Hit.
  pose proof (iteration_mem_inv _ _ _ _ _ _ _ Hinv Hit) as Hinv'.
  pose proof (continue_post n
    (λ i, bz_stream (block_input (default [] (F !! input_filename ctx))
                       (BLOCK_SIZE ctx) (file_size ctx) i))
    i s (input_filename ctx) Hinv Hi) as Hskip.
  destruct Hinv as (Hwf & Hlen & Htab). unfold iteration_mem, fopen_read in Hit.
  destruct (if open_ok o (BlockStream i) then _ else _) as [content|] eqn:Hopen;
    [|by simplify_eq].
  destruct (negb _); [by simplify_eq|].
  destruct (decide _) as [|Hfull]; [by simplify_eq|].
  apply dec_stable in Hfull. clear Hskip.
  destruct (compressed_blocks s !! i) as [output|] eqn:Hout; [|done].
  cbn [mbind option_bind] in Hit.
  destruct (compress_block _ _ _ _ _ _) as [[[r b] h']|] eqn:Hcb; [|done].
  cbn [mbind option_bind] in Hit. simplify_eq.
  destruct (compress_block_entry _ _ _ _ _ _ _ _ Hwf Hcb) as (Hr & Hfail & Hok & Hmono & Hframe).
  exists (bool_decide (r ≠ 0)), [EvOpenRead (input_filename ctx)], b.
  unfold end_iteration, log.
  cbn [env compression_errors mem compressed_blocks files trace].
  rewrite <- app_assoc. split_and!; try done.
  - by repeat constructor.
  - intros Hf%bool_decide_eq_true _. auto.
  - intros Hf%bool_decide_eq_false. apply dec_stable in Hf.
    assert (files (env s) !! input_filename ctx = Some content) as ->.
    { destruct (open_ok o (BlockStream i)); [done|done]. }
    rewrite block_offset_mem_eq in *. cbn [default]. unfold block_input.
    rewrite <- (fread_full (read_limit o (BlockStream i))) by
      (auto using block_length_nonneg).
    by apply Hok.
Qed.

End Iteration.

(** ** The whole loop *)

Lemma iterations_app t1 t2 : iterations (t1 ++ t2) = iterations t1 ++ iterations t2.
Proof. apply omap_app. Qed.

Lemma iterations_quiet t :
  Forall (λ e, iteration_of e = None ∧ is_open_write e = false) t → iterations t = [].
Proof. induction 1 as [|e t [He _] _ IH]; simpl; [done|]. unfold iterations. simpl. by rewrite He. Qed.

Lemma failed_count_cons f flags :
  failed_count (f :: flags) = (if f then 1 else 0) + failed_count flags.
Proof.
  unfold failed_count. rewrite filter_cons. destruct f.
  - rewrite decide_True by done. simpl length. lia.
  - rewrite decide_False by done. lia.
Qed.

Lemma failed_count_bounds flags : 0 ≤ failed_count flags ≤ Z.of_nat (length flags).
Proof.
  unfold failed_count. pose proof (length_filter (λ f : bool, f = true) flags). lia.
Qed.

Lemma failed_count_zero flags : failed_count flags = 0 → Forall (λ f, f = false) flags.
Proof.
  induction flags as [|f flags IH]; [constructor|].
  rewrite failed_count_cons. pose proof (failed_count_bounds flags).
  destruct f; [lia|]. intros. constructor; [done|]. apply IH. lia.
Qed.

(** What the loop leaves behind when its iterations are run to their end in
    the order [order], every index at most once. *)
Lemma run_iterations_spec n F P body order s s' :
  iteration_spec n F P body →
  NoDup order → Forall (λ i, (i < n)%nat) order →
  loop_inv n s → files (env s) = F →
  (∀ i, i ∈ order → compressed_blocks s !! i = Some zero_block) →
  run_iterations body order s = Some s' →
  ∃ flags t,
    length flags = length order
    ∧ env s' = {| files := F; trace := trace (env s) ++ t |}
    ∧ iterations t = zip order flags
    ∧ Forall (λ e, is_open_write e = false) t
    ∧ (0 ≤ compression_errors s →
       compression_errors s + Z.of_nat (length order) ≤ INT_MAX →
       compression_errors s' = compression_errors s + failed_count flags)
    ∧ loop_inv n s'
    ∧ (next_addr (mem s) ≤ next_addr (mem s'))%nat
    ∧ (∀ a, (a < next_addr (mem s))%nat → cells (mem s') !! a = cells (mem s) !! a)
    ∧ (∀ j, j ∉ order → compressed_blocks s' !! j = compressed_blocks s !! j)
    ∧ (∀ k i f, order !! k = Some i → flags !! k = Some f →
         ∃ b, compressed_blocks s' !! i = Some b
              ∧ (f = true → data b = None)
              ∧ (f = false → good_entry (mem s') (P i) b)).
Proof.
  intros Hbody Hnd. revert s.
  induction Hnd as [|i rest Hi Hnd IH]; intros s Hlt Hinv HF Hzero Hrun; simpl in Hrun.
  - simplify_eq. exists [], []. split_and!; try done.
    + destruct (env s'); simpl. by rewrite app_nil_r.
    + intros. unfold failed_count. simpl. lia.
  - destruct (body i s) as [s1|] eqn:Hs1; [|done]. cbn [mbind option_bind] in Hrun.
    apply Forall_cons in Hlt as [Hin Hlt].
    destruct (Hbody i s s1 Hinv HF Hin Hs1)
      as (f & t1 & b & Henv & Hquiet & Herr & Hinv1 & Hmono1 & Hframe1 & Htab1 & Hfail1 & Hgood1).
    assert (files (env s1) = F) as HF1 by (by rewrite Henv).
    assert (length (compressed_blocks s) = n) as Hlen by (by destruct Hinv as (_ & ? & _)).
    destruct (IH s1 Hlt Hinv1 HF1) as (flags & t & Hlen' & Henv' & Hits & Hnow & Herr' & Hinv' & Hmono' & Hframe' & Hkeep & Hentries); [|done|].
    { intros j Hj. rewrite Htab1, list_lookup_insert_ne; [apply Hzero; by right|].
      intros <-. done. }
    exists (f :: flags), (t1 ++ [EvIteration i f] ++ t).
    split_and!.
    + simpl. by rewrite Hlen'.
    + rewrite Henv'. f_equal. rewrite Henv. simpl. by rewrite <- !app_assoc.
    + rewrite !iterations_app, (iterations_quiet t1 Hquiet), Hits. done.
    + rewrite !Forall_app. split_and!; [|by repeat constructor|done].
      eapply Forall_impl; [exact Hquiet|]. by intros e [_ ?].
    + intros H0 Hmax. simpl length in Hmax. rewrite failed_count_cons.
      pose proof (failed_count_bounds flags).
      assert (compression_errors s1 = compression_errors s + (if f then 1 else 0)) as E.
      { rewrite Herr. destruct f; [|lia]. apply to_int_small. unfold INT_MAX in Hmax. lia. }
      rewrite Herr'; [lia| |]; destruct f; lia.
    + done.
    + lia.
    + intros a Ha. rewrite Hframe' by lia. by apply Hframe1.
    + intros j Hj. apply not_elem_of_cons in Hj as [Hne Hj].
      rewrite Hkeep by done. rewrite Htab1. by apply list_lookup_insert_ne.
    + intros [|k] j g Hk Hg; simpl in Hk, Hg; [|by eapply Hentries].
      simplify_eq. exists b. split_and!.
      * rewrite Hkeep by done. rewrite Htab1. apply list_lookup_insert_eq. lia.
      * intros ->. apply Hfail1; [done|]. apply Hzero. by left.
      * intros ->. destruct (Hgood1 eq_refl) as [Hsz Hdata]. split; [done|].
        destruct Hdata as [?|(a & Ha & Hc)]; [by left|right].
        exists a. split; [done|]. rewrite Hframe'; [done|].
        destruct Hinv1 as (Hwf1 & _). apply Hwf1. by eexists.
Qed.

(** ** Reaching the parallel loop *)

Lemma startup_mem_inr o c w ctx s0 :
  startup_mem o c w = Some (inr (ctx, s0)) →
  ∃ kb, configure c = inr (kb, input_filename ctx, output_filename ctx)
    ∧ BLOCK_SIZE ctx = to_int (kb * 1024)
    ∧ file_size ctx = (get_file_size (input_filename ctx) w).1
    ∧ num_blocks_of (file_size ctx) (BLOCK_SIZE ctx) = Some (num_blocks ctx)
    ∧ 0 ≤ num_blocks ctx
    ∧ s0 = initial_state (num_blocks ctx) (log (EvStat (input_filename ctx)) w).
Proof.
  unfold startup_mem. destruct (configure c) as [d|[[kb i] out]] eqn:Hc; [done|].
  unfold get_file_size.
  destruct (num_blocks_of _ _) as [n|] eqn:Hn; [|done]. cbn [mbind option_bind].
  unfold calloc_table. destruct (bool_decide (0 ≤ n)) eqn:Hpos; [|done].
  apply bool_decide_eq_true in Hpos.
  destruct (alloc_ok o TableAlloc); [|done]. simpl.
  intros [= <- <-]. exists kb. simpl. done.
Qed.

Lemma startup_inr o c w ctx s0 :
  startup o c w = Some (inr (ctx, s0)) →
  ∃ kb content, configure c = inr (kb, input_filename ctx, output_filename ctx)
    ∧ BLOCK_SIZE ctx = to_int (kb * 1024)
    ∧ files w !! input_filename ctx = Some content
    ∧ file_size ctx = Z.of_nat (length content)
    ∧ num_blocks_of (file_size ctx) (BLOCK_SIZE ctx) = Some (num_blocks ctx)
    ∧ 0 ≤ num_blocks ctx
    ∧ file_data ctx = fread (read_limit o InputStream) content 0 (to_size_t (file_size ctx))
    ∧ Z.of_nat (length (file_data ctx)) = to_size_t (file_size ctx)
    ∧ s0 = initial_state (num_blocks ctx)
             (log (EvStat (input_filename ctx)) (log (EvOpenRead (input_filename ctx)) w)).
Proof.
  unfold startup. destruct (configure c) as [d|[[kb i] out]] eqn:Hc; [done|].
  unfold fopen_read, get_file_size.
  destruct (if open_ok o InputStream then _ else _) as [content|] eqn:Hopen; [|done].
  assert (files w !! i = Some content) as Hfile by (by destruct (open_ok o InputStream)).
  cbn [files log]. rewrite Hfile.
  destruct (num_blocks_of _ _) as [n|] eqn:Hn; [|done]. cbn [mbind option_bind].
  unfold calloc_table. destruct (bool_decide (0 ≤ n)) eqn:Hpos; [|done].
  apply bool_decide_eq_true in Hpos.
  destruct (alloc_ok o TableAlloc); [|done]. simpl.
  destruct (alloc_ok o FileDataAlloc); [|done]. simpl.
  destruct (decide _) as [|Hread]; [done|]. apply dec_stable in Hread.
  intros [= <- <-]. exists kb, content. simpl. done.
Qed.

Lemma startup_inl o c w code w' :
  startup o c w = Some (inl (code, w')) → code = 1.
Proof.
  unfold startup. destruct (configure c) as [d|[[kb i] out]]; [by intros [= <- _]|].
  unfold fopen_read, get_file_size.
  destruct (if open_ok o InputStream then _ else _); [|by intros [= <- _]].
  destruct (num_blocks_of _ _); [|done]. cbn [mbind option_bind].
  destruct (negb _); [by intros [= <- _]|].
  destruct (negb _); [by intros [= <- _]|].
  destruct (decide _); [by intros [= <- _]|done].
Qed.

Lemma startup_mem_inl o c w code w' :
  startup_mem o c w = Some (inl (code, w')) → code = 1.
Proof.
  unfold startup_mem. destruct (configure c) as [d|[[kb i] out]]; [by intros [= <- _]|].
  unfold get_file_size.
  destruct (num_blocks_of _ _); [|done]. cbn [mbind option_bind].
  destruct (negb _); [by intros [= <- _]|done].
Qed.

(** [num_blocks] is an [int]. *)
Lemma num_blocks_of_int fs BS n : num_blocks_of fs BS = Some n → n ≤ INT_MAX.
Proof.
  unfold num_blocks_of. destruct (long_div _ _) as [q|]; [|done].
  intros [= <-]. unfold to_int, INT_MAX.
  pose proof (Z.mod_pos_bound (q + 2 ^ 31) (2 ^ 32)). lia.
Qed.

(** ** The on-demand loop always runs to its end *)

Section Totality.

Variable bz_stream : bytes → bytes.

Lemma compress_block_total e input n output h :
  heap_wf h → is_Some (compress_block bz_stream e input n output h).
Proof.
  intros Hwf.
  destruct (compress_block_spec bz_stream e input n output h Hwf)
    as (h2 & _ & _ & _ & Hcases).
  destruct Hcases as [(_ & E)|[(_ & _ & E)|[(_ & _ & _ & E & _)|(_ & _ & _ & E)]]];
    rewrite E; by eexists.
Qed.

Lemma iteration_mem_total o ctx n i s :
  loop_inv n s → (i < n)%nat → is_Some (iteration_mem bz_stream o ctx i s).
Proof.
  intros (Hwf & Hlen & _) Hi. unfold iteration_mem, fopen_read.
  destruct (if open_ok o (BlockStream i) then _ else _) as [content|]; [|by eexists].
  destruct (negb _); [by eexists|]. destruct (decide _); [by eexists|].
  destruct (lookup_lt_is_Some_2 (compressed_blocks s) i) as [output ->]; [lia|].
  cbn [mbind option_bind].
  destruct (compress_block_total (block_env o i)
    (fread (read_limit o (BlockStream i)) content
       (block_offset_mem (Z.of_nat i) (BLOCK_SIZE ctx))
       (block_length (block_offset_mem (Z.of_nat i) (BLOCK_SIZE ctx))
          (BLOCK_SIZE ctx) (file_size ctx)))
    (block_length (block_offset_mem (Z.of_nat i) (BLOCK_SIZE ctx))
       (BLOCK_SIZE ctx) (file_size ctx)) output (mem s) Hwf) as [[[r b'] h'] ->].
  by eexists.
Qed.

Lemma run_iterations_mem_total o ctx n order s :
  Forall (λ i, (i < n)%nat) order → loop_inv n s →
  is_Some (run_iterations (iteration_mem bz_stream o ctx) order s).
Proof.
  intros Hlt. revert s. induction Hlt as [|i rest Hi _ IH]; intros s Hinv; simpl.
  - by eexists.
  - destruct (iteration_mem_total o ctx n i s Hinv Hi) as [s1 Hs1]. rewrite Hs1.
    cbn [mbind option_bind]. apply IH. eapply iteration_mem_inv; eauto.
Qed.

End Totality.

Lemma startup_of_initial p o c w ctx s0 :
  startup_of p o c w = Some (inr (ctx, s0)) →
  0 ≤ num_blocks ctx ≤ INT_MAX
  ∧ ∃ t, s0 = initial_state (num_blocks ctx) {| files := files w; trace := trace w ++ t |}
         ∧ Forall (λ e, is_open_write e = false) t
         ∧ EvStat (input_filename ctx) ∈ t.
Proof.
  destruct p; simpl; intros Hs.
  - apply startup_inr in Hs as (kb & content & _ & _ & _ & _ & Hn & Hpos & _ & _ & ->).
    split; [split; [done|by eapply num_blocks_of_int]|].
    exists [EvOpenRead (input_filename ctx); EvStat (input_filename ctx)].
    unfold log. simpl. rewrite <- app_assoc. split_and!; [done|by repeat constructor|].
    set_solver.
  - apply startup_mem_inr in Hs as (kb & _ & _ & _ & Hn & Hpos & ->).
    split; [split; [done|by eapply num_blocks_of_int]|].
    exists [EvStat (input_filename ctx)]. unfold log. simpl.
    split_and!; [done|by repeat constructor|set_solver].
Qed.

Section Phase.

Variable bz_stream : bytes → bytes.

Lemma body_meets_spec p o ctx n F :
  iteration_spec n F (block_payload bz_stream p ctx F) (body_of bz_stream p o ctx).
Proof.
  destruct p; [apply iteration_meets_spec | apply iteration_mem_meets_spec].
Qed.

(** The parallel phase, for any order in which every index occurs once. *)
Lemma parallel_phase p o ctx n w order s :
  0 ≤ n ≤ INT_MAX →
  order ≡ₚ loop_indices n →
  run_iterations (body_of bz_stream p o ctx) order (initial_state n w) = Some s →
  loop_inv (Z.to_nat n) s
  ∧ phase_summary (block_payload bz_stream p ctx (files w)) order (initial_state n w) s.
Proof.
  intros Hn Hperm Hrun.
  assert (NoDup order) as Hnd by (rewrite Hperm; apply NoDup_seq).
  assert (Forall (λ i, (i < Z.to_nat n)%nat) order) as Hlt.
  { rewrite Hperm. apply Forall_forall. intros i Hi%elem_of_seq. lia. }
  destruct (run_iterations_spec (Z.to_nat n) (files w)
              (block_payload bz_stream p ctx (files w))
              (body_of bz_stream p o ctx) order (initial_state n w) s)
    as (flags & t & Hlen & Henv & Hits & Hquiet & Herr & Hinv & _ & _ & _ & Hentries);
    try done.
  - apply body_meets_spec.
  - apply loop_inv_initial. lia.
  - intros i Hi. simpl. apply lookup_replicate_2.
    rewrite Forall_forall in Hlt. by apply Hlt.
  - split; [done|]. exists flags, t. split_and!; try done.
    rewrite Herr; simpl; [lia|lia|].
    rewrite Hperm. unfold loop_indices. rewrite length_seq. lia.
Qed.

End Phase.

(** ** After the loop *)

Lemma finish_failed o ctx s :
  loop_inv (Z.to_nat (num_blocks ctx)) s → compression_errors s > 0 →
  finish o ctx s = Some (exit_with (CompressionFailed (compression_errors s)) (env s)).
Proof.
  intros Hinv Herr. unfold finish. rewrite decide_True by done.
  destruct (cleanup_blocks_safe _ _ Hinv) as [h ->]. done.
Qed.

Lemma main_of_steps bz_stream p o order c w ctx s0 s :
  startup_of p o c w = Some (inr (ctx, s0)) →
  run_iterations (body_of bz_stream p o ctx) order s0 = Some s →
  main_of bz_stream p o order c w = finish o ctx s.
Proof.
  intros Hstart Hrun. destruct p; simpl in *; unfold main, main_mem;
    rewrite Hstart; cbn [mbind option_bind]; by rewrite Hrun.
Qed.

Lemma loop_inv_of_run bz_stream p o ctx order n s0 s :
  loop_inv n s0 →
  run_iterations (body_of bz_stream p o ctx) order s0 = Some s → loop_inv n s.
Proof.
  intros Hinv. apply run_iterations_inv; [|done].
  destruct p; simpl; eauto using iteration_inv, iteration_mem_inv.
Qed.

(** C4: when the failure count is not zero after the parallel phase, [main]
    returns 1; the files are what they were before the run, and the run has
    not opened any file for writing: its trace holds the diagnostic with the
    count and no [EvOpenWrite]. *)
Theorem failed_block_fails_the_run
    (bz_stream : bytes → bytes) (p : pipeline) (o : oracle) (c : cmdline) (w : world)
    (ctx : context) (s0 s : loop_state) (nthreads : nat) (order : list nat) :
  startup_of p o c w = Some (inr (ctx, s0)) →
  omp_for nthreads (Z.to_nat (num_blocks ctx)) order →
  run_iterations (body_of bz_stream p o ctx) order s0 = Some s →
  compression_errors s ≠ 0 →
  ∃ t, main_of bz_stream p o order c w
       = Some (1, {| files := files w; trace := trace w ++ t |})
     ∧ Forall (λ e, is_open_write e = false) t
     ∧ EvDiag (CompressionFailed (compression_errors s)) ∈ t
     ∧ 0 < compression_errors s.
Proof.
  intros Hstart Homp Hrun Herr.
  destruct (startup_of_initial p o c w ctx s0 Hstart) as (Hn & t0 & -> & Hq0 & _).
  apply omp_for_permutation in Homp.
  destruct (parallel_phase bz_stream p o ctx _ _ order s Hn Homp Hrun)
    as (Hinv & flags & t1 & _ & Henv & _ & Hq1 & Hcount & _).
  pose proof (failed_count_bounds flags).
  rewrite (main_of_steps _ _ _ _ _ _ _ _ _ Hstart Hrun).
  rewrite finish_failed by (done || lia).
  exists (t0 ++ t1 ++ [EvDiag (CompressionFailed (compression_errors s))]).
  split_and!.
  - unfold exit_with, log. rewrite Henv. simpl. by rewrite <- !app_assoc.
  - rewrite !Forall_app. split_and!; [done|done|by repeat constructor].
  - rewrite !elem_of_app. right. right. by left.
  - lia.
Qed.

Lemma failed_block_fails_the_run_witness :
  ∃ t n, main_mem store_stream faulty [0%nat] plain_run sample_world
         = Some (1, {| files := files sample_world; trace := trace sample_world ++ t |})
       ∧ Forall (λ e, is_open_write e = false) t
       ∧ EvDiag (CompressionFailed n) ∈ t
       ∧ 0 < n.
Proof.
  edestruct (failed_block_fails_the_run store_stream OnDemand faulty plain_run
               sample_world) with (nthreads := 1%nat) (order := [0%nat])
    as (t & Hmain & Hquiet & Hdiag & Hpos).
  - vm_compute. reflexivity.
  - apply (omp_for_sequential 1 1). lia.
  - vm_compute. reflexivity.
  - vm_compute. discriminate.
  - exists t. eexists. split_and!; [exact Hmain|exact Hquiet|exact Hdiag|exact Hpos].
Defined.



(** ** A missing input file *)

Lemma num_blocks_of_missing BS :
  2 ≤ BS < 2 ^ 31 → num_blocks_of (-1) BS = Some 0.
Proof.
  intros HBS. unfold num_blocks_of, long_div.
  rewrite (to_long_small (-1 + BS)) by lia. rewrite (to_long_small (-1 + BS - 1)) by lia.
  rewrite decide_False by lia. rewrite decide_False by lia.
  cbn [mbind option_bind]. rewrite Z.quot_small by lia. done.
Qed.

(** C9: in the on-demand program, when [stat] fails on the input path the
    run goes on with [file_size = -1]: [num_blocks] is 0, the loop has no
    iteration (the only order a team can end them in is the empty one),
    [compression_errors] stays 0, the output file is created empty and the
    exit status is 0; no diagnostic is printed.  The block size is one for
    which [block_size_kb * 1024] is an [int], and the table allocation and
    the opening of the output succeed. *)
Theorem missing_input_is_not_reported
    (bz_stream : bytes → bytes) (o : oracle) (c : cmdline) (w : world)
    (kb : Z) (input output : string) (nthreads : nat) (order : list nat) :
  configure c = inr (kb, input, output) →
  kb < 2 ^ 21 →
  files w !! input = None →
  alloc_ok o TableAlloc = true →
  output_open_ok o = true →
  omp_for nthreads (loop_size (startup_mem o c w)) order →
  get_file_size input w = (-1, log (EvStat input) w)
  ∧ (∃ ctx s0, startup_mem o c w = Some (inr (ctx, s0))
       ∧ file_size ctx = -1 ∧ num_blocks ctx = 0
       ∧ order = []
       ∧ run_iterations (iteration_mem bz_stream o ctx) order s0 = Some s0
       ∧ compression_errors s0 = 0)
  ∧ main_mem bz_stream o order c w
    = Some (0, {| files := <[output := []]> (files w);
                  trace := trace w ++ [EvStat input; EvOpenWrite output] |}).
Proof.
  intros Hconf Hkb Hfile Halloc Hopen Homp.
  destruct (configure_inr _ _ _ _ Hconf) as [Hpos _].
  assert (num_blocks_of (-1) (to_int (kb * 1024)) = Some 0) as Hn.
  { rewrite to_int_small by lia. apply num_blocks_of_missing. lia. }
  assert (get_file_size input w = (-1, log (EvStat input) w)) as Hstat.
  { unfold get_file_size. by rewrite Hfile. }
  assert (startup_mem o c w
          = Some (inr ({| input_filename := input; output_filename := output;
                          BLOCK_SIZE := to_int (kb * 1024); file_size := -1;
                          num_blocks := 0; file_data := [] |},
                       initial_state 0 (log (EvStat input) w)))) as Hstart.
  { unfold startup_mem. rewrite Hconf, Hstat, Hn. cbn [mbind option_bind].
    unfold calloc_table. rewrite Halloc. done. }
  rewrite Hstart in Homp. cbn [loop_size num_blocks] in Homp.
  apply omp_for_permutation, Permutation_nil_r in Homp. subst order.
  split_and!; [done| |].
  - do 2 eexists. split_and!; [exact Hstart|done..].
  - unfold main_mem. rewrite Hstart. cbn [mbind option_bind run_iterations].
    unfold finish, write_bzip2_file, cleanup_blocks. cbn [initial_state compression_errors].
    rewrite decide_False by lia. rewrite Hopen.
    cbn. unfold log. cbn. by rewrite <- app_assoc.
Qed.

Lemma missing_input_is_not_reported_witness :
  main_mem store_stream calm [] {| options := []; operands := ["absent"; "out"] |}
           sample_world
  = Some (0, {| files := <["out" := []]> (files sample_world);
                trace := trace sample_world ++ [EvStat "absent"; EvOpenWrite "out"] |}).
Proof.
  apply (missing_input_is_not_reported store_stream calm
           {| options := []; operands := ["absent"; "out"] |} sample_world
           900 "absent" "out" 4 []).
  - reflexivity.
  - reflexivity.
  - reflexivity.
  - reflexivity.
  - reflexivity.
  - apply (omp_for_sequential 4 0). lia.
Defined.

(** ** [write_bzip2_file] *)

Lemma fwrite_holds lim h b P :
  holds h b P →
  let written := match lim with None => size b | Some k => Z.min (size b) (Z.max 0 k) end in
  fwrite lim (data b) (size b) h = Some (written, take (Z.to_nat written) P).
Proof.
  intros (a & Ha & Hc & Hsz). unfold fwrite. destruct (decide (size b = 0)) as [Hz|Hz].
  - rewrite Hz. replace (match lim with None => 0 | Some k => Z.min 0 (Z.max 0 k) end) with 0
      by (destruct lim; lia). done.
  - rewrite Ha. cbn [mbind option_bind]. rewrite Hc. cbn [mbind option_bind].
    rewrite decide_True by lia. done.
Qed.

Lemma fwrite_good lim h b P written chunk :
  good_entry h P b →
  fwrite lim (data b) (size b) h = Some (written, chunk) →
  written = size b → chunk = P.
Proof.
  intros [Hsz Hdata] Hw Hfull. unfold fwrite in Hw.
  destruct (decide (size b = 0)) as [Hz|Hz].
  - simplify_eq. symmetry. apply length_zero_iff_nil. lia.
  - destruct Hdata as [Hd|(a & Hd & Hc)]; rewrite Hd in Hw; [done|].
    cbn [mbind option_bind] in Hw. rewrite Hc in Hw. cbn [mbind option_bind] in Hw.
    destruct (decide _); [|done]. injection Hw as Hw1 Hw2.
    rewrite <- Hw2, Hw1, Hfull. apply take_ge. lia.
Qed.

Section Writer.

Variables (limit : nat → option Z) (blocks : list CompressedBlock) (h : heap)
          (P : nat → bytes).

(** A write that returns 0 has sent the payloads of the entries, in the
    order of the indices, and nothing else. *)
Lemma write_loop_success indices sent out :
  (∀ i, i ∈ indices → ∃ b, blocks !! i = Some b ∧ good_entry h (P i) b) →
  write_loop limit indices blocks h sent = Some (0, out) →
  out = sent ++ concat (P <$> indices).
Proof.
  revert sent. induction indices as [|i rest IH]; intros sent Hgood Hw; simpl in Hw.
  - simplify_eq. simpl. by rewrite app_nil_r.
  - destruct (Hgood i) as (b & Hb & Hgb); [left|]. rewrite Hb in Hw.
    cbn [mbind option_bind] in Hw.
    destruct (fwrite _ _ _ _) as [[written chunk]|] eqn:Hf; [|done].
    cbn [mbind option_bind] in Hw.
    destruct (decide (written ≠ size b)) as [|Hfull]; [done|]. apply dec_stable in Hfull.
    rewrite (fwrite_good _ _ _ _ _ _ Hgb Hf Hfull) in Hw.
    rewrite (IH _ (λ j Hj, Hgood j (list_elem_of_further _ _ _ Hj)) Hw).
    simpl. by rewrite <- app_assoc.
Qed.

Lemma write_loop_holds indices sent :
  (∀ i, i ∈ indices → ∃ b, blocks !! i = Some b ∧ holds h b (P i)) →
  (Forall (λ i, ∀ b, blocks !! i = Some b → full_write limit i b) indices →
   write_loop limit indices blocks h sent = Some (0, sent ++ concat (P <$> indices)))
  ∧ (¬ Forall (λ i, ∀ b, blocks !! i = Some b → full_write limit i b) indices →
     ∃ out, write_loop limit indices blocks h sent = Some (-1, out)
            ∧ sent `prefix_of` out
            ∧ out `prefix_of` sent ++ concat (P <$> indices)).
Proof.
  revert sent. induction indices as [|i rest IH]; intros sent Hholds.
  - split; [intros _; simpl; by rewrite app_nil_r|]. intros []. constructor.
  - destruct (Hholds i) as (b & Hb & Hhb); [left|].
    assert (∀ j, j ∈ rest → ∃ b, blocks !! j = Some b ∧ holds h b (P j)) as Hrest
      by (intros; apply Hholds; by right).
    pose proof (fwrite_holds (limit i) h b (P i) Hhb) as Hf. cbn zeta in Hf.
    destruct Hhb as (a & _ & _ & Hsz).
    cbn [write_loop]. rewrite Hb. cbn [mbind option_bind]. rewrite Hf.
    cbn [mbind option_bind].
    destruct (decide (full_write limit i b)) as [Hfull|Hshort].
    + assert (match limit i with None => size b | Some k => Z.min (size b) (Z.max 0 k) end
              = size b) as ->.
      { unfold full_write in Hfull. destruct (limit i); simpl in Hfull; lia. }
      rewrite decide_False by (intros ?; done).
      rewrite take_ge by lia.
      destruct (IH (sent ++ P i) Hrest) as [IH1 IH2]. split.
      * intros [_ Hall]%Forall_cons. rewrite IH1 by done. simpl. by rewrite <- app_assoc.
      * intros Hnot. destruct IH2 as (out & -> & Hpre & Hout).
        { intros Hall. apply Hnot. constructor; [|done]. intros b' Hb'. by simplify_eq. }
        exists out. split_and!; [done| |].
        -- etrans; [|done]. by apply prefix_app_r.
        -- simpl. by rewrite app_assoc.
    + assert (match limit i with None => size b | Some k => Z.min (size b) (Z.max 0 k) end
              ≠ size b) as Hne.
      { unfold full_write in Hshort. destruct (limit i); simpl in Hshort; [lia|done]. }
      rewrite decide_True by done. split.
      * intros [Hi _]%Forall_cons. destruct Hshort. by apply Hi.
      * intros _. eexists. split_and!; [done|by apply prefix_app_r|].
        simpl. apply prefix_app, prefix_app_r, prefix_take.
Qed.

End Writer.

Lemma fmap_lookup_seq {A} (d : A) (l : list A) :
  (λ i, default d (l !! i)) <$> seq 0 (length l) = l.
Proof.
  apply list_eq. intros i. rewrite list_lookup_fmap.
  destruct (decide (i < length l)%nat) as [Hi|Hi].
  - rewrite lookup_seq_lt by done. simpl.
    destruct (lookup_lt_is_Some_2 l i Hi) as [x ->]. done.
  - rewrite lookup_seq_ge by lia. simpl. symmetry. apply lookup_ge_None. lia.
Qed.



(** ** The output of a run that succeeds *)

Section Output.

Variable bz_stream : bytes → bytes.

(** The file a pipeline writes when it exits with status 0: the compressed
    streams of the blocks, in index order. *)
Lemma successful_run_output p o c w ctx s0 order w' :
  startup_of p o c w = Some (inr (ctx, s0)) →
  order ≡ₚ loop_indices (num_blocks ctx) →
  main_of bz_stream p o order c w = Some (0, w') →
  files w'
  = <[output_filename ctx :=
        concat (block_payload bz_stream p ctx (files w) <$> loop_indices (num_blocks ctx))]>
      (files w).
Proof.
  intros Hstart Hperm Hmain.
  destruct (run_iterations (body_of bz_stream p o ctx) order s0) as [s|] eqn:Hrun.
  2:{ destruct p; simpl in *; unfold main, main_mem in Hmain;
        rewrite Hstart in Hmain; cbn [mbind option_bind] in Hmain;
        by rewrite Hrun in Hmain. }
  rewrite (main_of_steps _ _ _ _ _ _ _ _ _ Hstart Hrun) in Hmain.
  destruct (startup_of_initial p o c w ctx s0 Hstart) as (Hn & t0 & -> & _).
  destruct (parallel_phase bz_stream p o ctx _ _ order s Hn Hperm Hrun)
    as (Hinv & flags & t1 & Hlen & Henv & _ & _ & Hcount & Hentries).
  pose proof (failed_count_bounds flags) as Hbounds.
  unfold finish in Hmain.
  destruct (decide (compression_errors s > 0)) as [Hpos|Hzero].
  { destruct (cleanup_blocks _ _ _); [|done]. by simplify_eq. }
  assert (Forall (λ f, f = false) flags) as Hflags by (apply failed_count_zero; lia).
  unfold write_bzip2_file in Hmain.
  destruct (output_open_ok o).
  2:{ cbn [mbind option_bind] in Hmain. destruct (cleanup_blocks _ _ _); [|done].
      by simplify_eq. }
  destruct (write_loop _ _ _ _ _) as [[r content]|] eqn:Hw; [|done].
  cbn [mbind option_bind] in Hmain.
  destruct (cleanup_blocks _ _ _); [|done]. cbn [mbind option_bind] in Hmain.
  destruct (decide (r ≠ 0)) as [|Hr]; [by simplify_eq|]. apply dec_stable in Hr. subst r.
  apply (write_loop_success _ _ _ (block_payload bz_stream p ctx (files w))) in Hw.
  - simplify_eq. rewrite Henv. simpl. done.
  - intros i Hi. rewrite <- Hperm in Hi. apply list_elem_of_lookup in Hi as [k Hk].
    destruct (lookup_lt_is_Some_2 flags k) as [f Hf].
    { rewrite Hlen. by eapply lookup_lt_Some. }
    destruct (Hentries k i f Hk Hf) as (b & Hb & _ & Hgood).
    exists b. split; [done|]. apply Hgood.
    rewrite Forall_forall in Hflags. apply Hflags. by eapply list_elem_of_lookup_2.
Qed.

End Output.

Lemma exit_status_0_started bz_stream p o order c w w' :
  main_of bz_stream p o order c w = Some (0, w') →
  ∃ ctx s0, startup_of p o c w = Some (inr (ctx, s0)).
Proof.
  intros Hmain.
  destruct (startup_of p o c w) as [[[code w1]|[ctx s0]]|] eqn:Hstart.
  - assert (code = 1) as -> by (destruct p; eauto using startup_inl, startup_mem_inl).
    destruct p; simpl in *; unfold main, main_mem in Hmain; rewrite Hstart in Hmain;
      by simplify_eq/=.
  - eauto.
  - destruct p; simpl in *; unfold main, main_mem in Hmain; by rewrite Hstart in Hmain.
Qed.

Lemma started_source p o c w ctx s0 kb input output content :
  startup_of p o c w = Some (inr (ctx, s0)) →
  configure c = inr (kb, input, output) →
  files w !! input = Some content →
  Z.of_nat (length content) < 2 ^ 63 →
  output_filename ctx = output
  ∧ BLOCK_SIZE ctx = to_int (kb * 1024)
  ∧ file_size ctx = Z.of_nat (length content)
  ∧ num_blocks_of (file_size ctx) (BLOCK_SIZE ctx) = Some (num_blocks ctx)
  ∧ source_of p ctx (files w) = content.
Proof.
  intros Hstart Hconf Hfile Hfit. destruct p; simpl in Hstart.
  - apply startup_inr in Hstart
      as (kb' & content' & Hconf' & HBS & Hfile' & Hfs & Hn & _ & Hdata & Hlen & _).
    rewrite Hconf in Hconf'. injection Hconf' as Ekb Ein Eout. subst kb'.
    rewrite <- Ein, Hfile in Hfile'. injection Hfile' as <-.
    split_and!; try done. simpl.
    assert (to_size_t (file_size ctx) = file_size ctx) as Hsz.
    { unfold to_size_t. apply Z.mod_small. lia. }
    rewrite Hsz in Hdata, Hlen. rewrite Hdata in Hlen |- *.
    rewrite fread_full by (done || lia). simpl. apply take_ge. lia.
  - apply startup_mem_inr in Hstart as (kb' & Hconf' & HBS & Hfs & Hn & _ & _).
    rewrite Hconf in Hconf'. injection Hconf' as Ekb Ein Eout. subst kb'.
    unfold get_file_size in Hfs. rewrite <- Ein, Hfile in Hfs. simpl in Hfs.
    split_and!; try done. simpl. by rewrite <- Ein, Hfile.
Qed.

Lemma run_output_determined bz_stream p o c w kb input output content order w' :
  configure c = inr (kb, input, output) →
  files w !! input = Some content →
  Z.of_nat (length content) < 2 ^ 63 →
  order ≡ₚ seq 0 (loop_size (startup_of p o c w)) →
  main_of bz_stream p o order c w = Some (0, w') →
  files w' = <[output := expected_output bz_stream content (to_int (kb * 1024))]> (files w).
Proof.
  intros Hconf Hfile Hfit Hperm Hmain.
  destruct (exit_status_0_started _ _ _ _ _ _ _ Hmain) as (ctx & s0 & Hstart).
  rewrite Hstart in Hperm. cbn [loop_size] in Hperm.
  destruct (started_source _ _ _ _ _ _ _ _ _ _ Hstart Hconf Hfile Hfit)
    as (Hout & HBS & Hfs & Hn & Hsrc).
  rewrite (successful_run_output bz_stream p o c w ctx s0 order w' Hstart Hperm Hmain).
  unfold expected_output, block_payload. rewrite Hsrc, Hout, <- HBS, <- Hfs, Hn. done.
Qed.

(** Two threads can end three iterations in the order 1, 0, 2. *)
Lemma omp_for_out_of_order : omp_for 2 3 [1; 0; 2]%nat.
Proof.
  eexists. split; [|split; [split|]].
  - eapply rtc_l; [apply (step_claim 3 0); [reflexivity | simpl; lia]|]. simpl.
    eapply rtc_l; [apply (step_claim 3 1); [reflexivity | simpl; lia]|]. simpl.
    eapply rtc_l; [apply (step_finish 3 1 1); reflexivity|]. simpl.
    eapply rtc_l; [apply (step_finish 3 0 0); reflexivity|]. simpl.
    eapply rtc_l; [apply (step_claim 3 0); [reflexivity | simpl; lia]|]. simpl.
    eapply rtc_l; [apply (step_finish 3 0 2); reflexivity|]. simpl.
    apply rtc_refl.
  - reflexivity.
  - repeat constructor.
  - reflexivity.
Qed.

(** The scenario of the specification, run: whatever the order in which the
    three iterations end, the output is the three streams in index order. *)
Example run_2560_1024 :
  (λ r : Z * world, (r.1, files r.2 !! "out"))
    <$> main_mem store_stream calm [2; 0; 1]%nat small_blocks big_world
  = Some (0, Some (store_stream (replicate 1024 Byte.x61)
                   ++ store_stream (replicate 1024 Byte.x61)
                   ++ store_stream (replicate 512 Byte.x61))).
Proof. vm_compute. reflexivity. Qed.

Lemma sizes_fit_big_world : sizes_fit big_world.
Proof.
  intros path content Hfile. unfold big_world in Hfile. cbn [files] in Hfile.
  apply lookup_singleton_Some in Hfile as [_ <-]. rewrite length_replicate. lia.
Qed.

(** ** Where the 32-bit arithmetic of the block plan gives way *)

(** The scenario of the specification: 2,560 bytes in blocks of 1,024. *)
Example block_plan_2560_1024 :
  block_plan 2560 1024 = Some [(0, 1024); (1024, 1024); (2048, 512)].
Proof. reflexivity. Qed.

(** C3: the on-demand program with the default block size (900 KB) on an
    input of 5 GiB.  The loop has 5826 iterations; for iteration 4661 the
    product [i * BLOCK_SIZE] is 4295577600, which is not what [offset]
    becomes: the [unsigned int] holds 610304, inside block 0.  The resident
    program computes the same value. *)
Theorem offset_is_truncated_past_4GiB :
  num_blocks_of 5368709120 921600 = Some 5826
  ∧ 4661 * 921600 = 4295577600
  ∧ block_offset_mem 4661 921600 = 610304
  ∧ block_offset 4661 921600 = 610304
  ∧ block_range_mem 4661 921600 5368709120 = (610304, 921600).
Proof. split_and!; vm_compute; reflexivity. Qed.

(** C1: the default block size on an input of 4 GiB - 1 bytes.  Every
    offset fits 32 bits, but for the last block, at offset 4294656000, the
    sum [offset + block_size] wraps around to 610304, the test against
    [file_size] fails and the block keeps the full length 921600 instead of
    the 311295 bytes that are left: the plan ends 610305 bytes after the
    end of the input and does not cover [0, total_length) exactly. *)
Theorem block_plan_overruns_near_4GiB :
  last <$> block_plan 4294967295 921600 = Some (Some (4294656000, 921600))
  ∧ to_uint (4294656000 + 921600) = 610304
  ∧ ∀ plan, block_plan 4294967295 921600 = Some plan →
            ¬ plan_covers 4294967295 921600 plan.
Proof.
  assert (last <$> block_plan 4294967295 921600 = Some (Some (4294656000, 921600)))
    as Hlast by (vm_compute; reflexivity).
  split_and!; [done|reflexivity|].
  intros plan Hplan (_ & Hend & _). rewrite Hplan in Hlast. injection Hlast as Hlast.
  unfold plan_end in Hend. rewrite Hlast in Hend. discriminate.
Qed.

(** ** Where the block plan is right

    As long as [file_size + BLOCK_SIZE] fits 32 bits, nothing wraps around
    and the plan is the one the specification describes. *)

Section PlanInRange.

Variables (fs BS : Z).
Hypothesis Hfs : 0 ≤ fs.
Hypothesis HBS : 2 ≤ BS.
Hypothesis Hfit : fs + BS ≤ 2 ^ 32.

Let n := (fs + BS - 1) / BS.

Local Lemma n_bounds : 0 ≤ n ∧ fs ≤ n * BS ∧ n * BS < fs + BS ∧ n < 2 ^ 31.
Proof.
  unfold n.
  pose proof (Z.mul_div_le (fs + BS - 1) BS ltac:(lia)).
  pose proof (Z.mul_succ_div_gt (fs + BS - 1) BS ltac:(lia)).
  assert (0 ≤ (fs + BS - 1) / BS) by (apply Z.div_pos; lia).
  split_and!; nia.
Qed.

Lemma num_blocks_of_in_range : num_blocks_of fs BS = Some n.
Proof.
  destruct n_bounds as (H0 & _ & _ & Hn).
  unfold num_blocks_of, long_div.
  rewrite (to_long_small (fs + BS)) by lia. rewrite (to_long_small (fs + BS - 1)) by lia.
  rewrite decide_False by lia. rewrite decide_False by (unfold LONG_MIN; lia).
  cbn [mbind option_bind]. rewrite Z.quot_div_nonneg by lia.
  fold n. rewrite to_int_small by lia. done.
Qed.

Lemma block_range_in_range i :
  0 ≤ i < n →
  block_range_mem i BS fs = (i * BS, Z.min BS (fs - i * BS))
  ∧ 0 < Z.min BS (fs - i * BS)
  ∧ i * BS + Z.min BS (fs - i * BS) ≤ fs.
Proof.
  intros Hi. destruct n_bounds as (H0 & Hle & Hlt & Hn).
  assert (i * BS + BS ≤ n * BS) by nia.
  assert (0 ≤ i * BS) by nia.
  unfold block_range_mem, block_offset_mem, block_length.
  rewrite (to_long_small (i * BS)) by lia. rewrite (to_uint_small (i * BS)) by lia.
  rewrite (to_uint_small BS) by lia. rewrite (to_uint_small (i * BS + BS)) by lia.
  split_and!; [|lia|lia].
  destruct (decide (i * BS + BS > fs)).
  - rewrite (to_long_small (fs - i * BS)) by lia.
    rewrite (to_uint_small (fs - i * BS)) by lia. f_equal. lia.
  - f_equal. lia.
Qed.

Local Definition range_of (i : nat) : Z * Z := block_range_mem (Z.of_nat i) BS fs.

Local Lemma contiguous_tail (m j : nat) :
  (Z.of_nat (j + m) = n)%nat →
  contiguous_from (Z.of_nat j * BS) (range_of <$> seq j m).
Proof.
  revert j. induction m as [|m IH]; intros j Hjm; [done|].
  cbn [seq fmap list_fmap]. unfold range_of at 1.
  destruct (block_range_in_range (Z.of_nat j)) as (-> & Hpos & _); [lia|].
  cbn [contiguous_from]. split_and!; [done|done|].
  destruct m as [|m]; [done|].
  assert (Z.min BS (fs - Z.of_nat j * BS) = BS) as ->.
  { destruct n_bounds as (_ & _ & Hlt & _). nia. }
  replace (Z.of_nat j * BS + BS) with (Z.of_nat (S j) * BS) by lia.
  apply IH. lia.
Qed.

Lemma block_plan_in_range :
  ∃ plan, block_plan fs BS = Some plan ∧ plan_covers fs BS plan.
Proof.
  destruct n_bounds as (H0 & Hle & Hlt & Hn).
  exists (range_of <$> seq 0 (Z.to_nat n)). split.
  { unfold block_plan. rewrite num_blocks_of_in_range. done. }
  assert (∀ i r, (range_of <$> seq 0 (Z.to_nat n)) !! i = Some r →
            (i < Z.to_nat n)%nat ∧ r = range_of i) as Hlookup.
  { intros i r Hr. rewrite list_lookup_fmap in Hr.
    destruct (seq 0 (Z.to_nat n) !! i) as [j|] eqn:Hj; [|done].
    apply lookup_seq in Hj as [-> ?]. simpl in Hr. by simplify_eq. }
  assert (∀ r, last (range_of <$> seq 0 (Z.to_nat n)) = Some r →
            0 < n ∧ r = range_of (Z.to_nat (n - 1))) as Hlast.
  { intros r Hr. rewrite fmap_last in Hr.
    destruct (Z.to_nat n) as [|k] eqn:Hk; [done|].
    rewrite seq_S, last_snoc in Hr. simpl in Hr. simplify_eq.
    split; [lia|]. f_equal. lia. }
  split_and!.
  - apply (contiguous_tail (Z.to_nat n) 0). lia.
  - unfold plan_end.
    destruct (last (range_of <$> seq 0 (Z.to_nat n))) as [r|] eqn:Hr.
    + destruct (Hlast r eq_refl) as [Hpos ->]. unfold range_of.
      destruct (block_range_in_range (Z.of_nat (Z.to_nat (n - 1)))) as (-> & _ & _); [lia|].
      rewrite Z2Nat.id by lia. nia.
    + rewrite fmap_last in Hr. destruct (Z.to_nat n) as [|k] eqn:Hk.
      * nia.
      * by rewrite seq_S, last_snoc in Hr.
  - intros i r Hr Hi. rewrite length_fmap, length_seq in Hi.
    destruct (Hlookup i r Hr) as [_ ->]. unfold range_of.
    destruct (block_range_in_range (Z.of_nat i)) as (-> & _ & _); [lia|].
    simpl. nia.
  - intros r Hr. destruct (Hlast r Hr) as [Hpos ->]. unfold range_of.
    destruct (block_range_in_range (Z.of_nat (Z.to_nat (n - 1)))) as (-> & ? & _); [lia|].
    simpl. lia.
Qed.

End PlanInRange.

(** ** Runs in which nothing fails

    With an environment that never says no, an input whose size leaves the
    block plan in range, and a compressor that keeps the promise of the
    bzlib manual (the stream of [n] bytes fits [n + n/100 + 600] bytes), both
    programs exit with status 0. *)

Lemma output_buffer_size_small n :
  0 ≤ n < 2 ^ 31 → output_buffer_size n = n + n / 100 + 600.
Proof.
  intros Hn. unfold output_buffer_size.
  assert (0 ≤ n / 100 ≤ 21474837)
    by (split; [apply Z.div_pos; lia | apply Z.div_le_upper_bound; lia]).
  rewrite (to_uint_small (n + n / 100)) by lia. apply to_uint_small. lia.
Qed.

Section FaultFree.

Variable bz_stream : bytes → bytes.
Hypothesis Hbz : bz_fits bz_stream.

Lemma compress_block_no_fault input output h :
  heap_wf h → Z.of_nat (length input) < 2 ^ 31 →
  ∃ b h', compress_block bz_stream no_fault input (Z.of_nat (length input)) output h
          = Some (0, b, h')
        ∧ is_Some (data b).
Proof.
  intros Hwf Hlen.
  destruct (compress_block_spec bz_stream no_fault input (Z.of_nat (length input))
              output h Hwf) as (h' & _ & _ & _ & Hcases).
  destruct Hcases as [(? & _)|[(_ & Hnot & _)|[(_ & _ & _ & E & _)|(_ & _ & ? & _)]]];
    try done.
  - destruct Hnot. split; [done|].
    rewrite output_buffer_size_small by lia. by apply Hbz.
  - eauto.
Qed.

(** In range, the bytes of block [i] are [block_size] bytes inside the
    input. *)
Lemma block_input_in_range ctx (content : bytes) i :
  in_range ctx → Z.of_nat (length content) = file_size ctx →
  0 ≤ Z.of_nat i < num_blocks ctx →
  let offset := block_offset (Z.of_nat i) (BLOCK_SIZE ctx) in
  let block_size := block_length offset (BLOCK_SIZE ctx) (file_size ctx) in
  offset + block_size ≤ file_size ctx
  ∧ 0 ≤ block_size < 2 ^ 31
  ∧ Z.of_nat (length (take (Z.to_nat block_size) (drop (Z.to_nat offset) content)))
    = block_size.
Proof.
  intros (Hfs & HBS & Hfit & Hn) Hlen Hi. cbn zeta.
  destruct (block_range_in_range (file_size ctx) (BLOCK_SIZE ctx) Hfs ltac:(lia) Hfit
              (Z.of_nat i)) as (Hrange & Hpos & Hend); [by rewrite <- Hn|].
  unfold block_range_mem in Hrange. injection Hrange as Hoff Hlen'.
  rewrite Hoff in Hlen'. rewrite <- block_offset_mem_eq, Hoff, Hlen'.
  assert (0 ≤ Z.of_nat i * BLOCK_SIZE ctx) by nia.
  split_and!; [lia|lia|lia|]. rewrite length_take, length_drop. lia.
Qed.

Lemma fault_free_iteration p o ctx F (content : bytes) i s :
  fault_free o → in_range ctx →
  source_of p ctx F = content →
  (p = OnDemand → F !! input_filename ctx = Some content) →
  Z.of_nat (length content) = file_size ctx →
  loop_inv (Z.to_nat (num_blocks ctx)) s → files (env s) = F →
  (i < Z.to_nat (num_blocks ctx))%nat →
  ∃ s' b, body_of bz_stream p o ctx i s = Some s'
    ∧ compression_errors s' = compression_errors s
    ∧ compressed_blocks s' = <[i := b]> (compressed_blocks s)
    ∧ is_Some (data b).
Proof.
  intros (Halloc & Hopen & Hread & Henv & _ & _) Hrange Hsrc Hfile Hlen
    (Hwf & Hlen' & _) HF Hi.
  destruct (block_input_in_range ctx content i Hrange Hlen ltac:(lia))
    as (Hin & Hsize & Hblock).
  destruct (lookup_lt_is_Some_2 (compressed_blocks s) i) as [output Hout]; [lia|].
  destruct (compress_block_no_fault
              (take (Z.to_nat (block_length (block_offset (Z.of_nat i) (BLOCK_SIZE ctx))
                                 (BLOCK_SIZE ctx) (file_size ctx)))
                 (drop (Z.to_nat (block_offset (Z.of_nat i) (BLOCK_SIZE ctx))) content))
              output (mem s) Hwf)
    as (b & h' & Hcb & Hdata); [lia|].
  rewrite Hblock in Hcb.
  destruct p; simpl in *.
  - unfold iteration, read_at. subst content. rewrite decide_True by lia.
    cbn [mbind option_bind]. rewrite Hout. cbn [mbind option_bind]. rewrite Henv, Hcb.
    cbn [mbind option_bind].
    eexists _, b. split_and!; [reflexivity|done|done|done].
  - specialize (Hfile eq_refl). clear Hsrc.
    unfold iteration_mem, fopen_read. rewrite Hopen, HF, Hfile, Halloc, Hread. cbn [negb].
    rewrite block_offset_mem_eq. unfold fread.
    rewrite decide_False by (intros Hne; by apply Hne).
    rewrite Hout. cbn [mbind option_bind]. rewrite Henv, Hcb. cbn [mbind option_bind].
    eexists _, b. split_and!; [reflexivity|done|done|done].
Qed.

End FaultFree.

Section FaultFreeRun.

Variable bz_stream : bytes → bytes.
Hypothesis Hbz : bz_fits bz_stream.

Lemma fault_free_loop p o ctx F (content : bytes) order s :
  fault_free o → in_range ctx →
  source_of p ctx F = content →
  (p = OnDemand → F !! input_filename ctx = Some content) →
  Z.of_nat (length content) = file_size ctx →
  NoDup order → Forall (λ i, (i < Z.to_nat (num_blocks ctx))%nat) order →
  loop_inv (Z.to_nat (num_blocks ctx)) s → files (env s) = F →
  ∃ s', run_iterations (body_of bz_stream p o ctx) order s = Some s'
    ∧ compression_errors s' = compression_errors s
    ∧ (∀ j, j ∉ order → compressed_blocks s' !! j = compressed_blocks s !! j)
    ∧ (∀ i, i ∈ order → ∃ b, compressed_blocks s' !! i = Some b ∧ is_Some (data b)).
Proof.
  intros Hff Hrange Hsrc Hfile Hlen Hnd. revert s.
  induction Hnd as [|i rest Hi Hnd IH]; intros s Hlt Hinv HF.
  - exists s. split_and!; [done|done|done|]. intros i Hi. by apply elem_of_nil in Hi.
  - apply Forall_cons in Hlt as [Hin Hlt].
    destruct (fault_free_iteration bz_stream Hbz p o ctx F content i s
                Hff Hrange Hsrc Hfile Hlen Hinv HF Hin)
      as (s1 & b & Hs1 & Herr1 & Htab1 & Hdata1).
    destruct (body_meets_spec bz_stream p o ctx _ F i s s1 Hinv HF Hin Hs1)
      as (f & t & b' & Henv1 & _ & _ & Hinv1 & _).
    assert (files (env s1) = F) as HF1 by (by rewrite Henv1).
    destruct (IH s1 Hlt Hinv1 HF1) as (s' & Hrun & Herr & Hkeep & Hdone).
    exists s'. cbn [run_iterations]. rewrite Hs1. cbn [mbind option_bind].
    split_and!; [done|congruence| |].
    + intros j [Hne Hj]%not_elem_of_cons. rewrite Hkeep by done.
      rewrite Htab1. by apply list_lookup_insert_ne.
    + intros j [->|Hj]%elem_of_cons; [|by apply Hdone].
      exists b. split; [|done]. rewrite Hkeep by done. rewrite Htab1.
      apply list_lookup_insert_eq. destruct Hinv as (_ & -> & _). done.
Qed.

Lemma fault_free_startup p o c w kb input output (content : bytes) :
  fault_free o →
  configure c = inr (kb, input, output) → kb < 2 ^ 21 →
  files w !! input = Some content →
  Z.of_nat (length content) + kb * 1024 ≤ 2 ^ 32 →
  ∃ ctx s0, startup_of p o c w = Some (inr (ctx, s0))
    ∧ in_range ctx
    ∧ source_of p ctx (files w) = content
    ∧ input_filename ctx = input
    ∧ Z.of_nat (length content) = file_size ctx.
Proof.
  intros (Halloc & Hopen & Hread & _) Hconf Hkb Hfile Hfit.
  destruct (configure_inr _ _ _ _ Hconf) as [Hpos _].
  assert (to_int (kb * 1024) = kb * 1024) as HBS by (apply to_int_small; lia).
  pose proof (num_blocks_of_in_range (Z.of_nat (length content)) (kb * 1024)
                ltac:(lia) ltac:(lia) Hfit) as Hn.
  assert (0 ≤ (Z.of_nat (length content) + kb * 1024 - 1) / (kb * 1024)) as Hn0
    by (apply Z.div_pos; lia).
  destruct p; simpl.
  - unfold startup, fopen_read, get_file_size. rewrite Hconf, Hopen. cbn [files log].
    rewrite Hfile, HBS, Hn. cbn [mbind option_bind]. unfold calloc_table.
    rewrite bool_decide_eq_true_2 by done. rewrite !Halloc, Hread. cbn [negb andb].
    assert (to_size_t (Z.of_nat (length content)) = Z.of_nat (length content)) as ->.
    { unfold to_size_t. apply Z.mod_small. lia. }
    assert (fread None content 0 (Z.of_nat (length content)) = content) as ->.
    { unfold fread. rewrite Nat2Z.id. simpl. apply firstn_all. }
    rewrite decide_False by (intros Hne; by apply Hne).
    do 2 eexists. split; [reflexivity|]. unfold in_range. simpl. split_and!; try done; lia.
  - unfold startup_mem, get_file_size. rewrite Hconf, Hfile, HBS, Hn.
    cbn [mbind option_bind]. unfold calloc_table.
    rewrite bool_decide_eq_true_2 by done. rewrite Halloc. cbn [negb andb].
    do 2 eexists. split; [reflexivity|]. unfold in_range. simpl. rewrite Hfile.
    split_and!; try done; lia.
Qed.

(** A run in which nothing fails exits with status 0. *)
Lemma fault_free_run_exits_0 p o c w kb input output (content : bytes) order :
  fault_free o →
  configure c = inr (kb, input, output) → kb < 2 ^ 21 →
  files w !! input = Some content →
  Z.of_nat (length content) + kb * 1024 ≤ 2 ^ 32 →
  order ≡ₚ seq 0 (loop_size (startup_of p o c w)) →
  ∃ w', main_of bz_stream p o order c w = Some (0, w').
Proof.
  intros Hff Hconf Hkb Hfile Hfit Hperm.
  destruct (fault_free_startup p o c w kb input output content Hff Hconf Hkb Hfile Hfit)
    as (ctx & s0 & Hstart & Hrange & Hsrc & Hin & Hlen).
  rewrite Hstart in Hperm. cbn [loop_size] in Hperm.
  destruct (startup_of_initial p o c w ctx s0 Hstart) as (Hn & t0 & -> & _).
  assert (NoDup order) as Hnd by (rewrite Hperm; apply NoDup_seq).
  assert (Forall (λ i, (i < Z.to_nat (num_blocks ctx))%nat) order) as Hlt.
  { rewrite Hperm. apply Forall_forall. intros i Hi%elem_of_seq. lia. }
  destruct (fault_free_loop p o ctx (files w) content order
              (initial_state (num_blocks ctx) {| files := files w; trace := trace w ++ t0 |}))
    as (s & Hrun & Herr & _ & Hdata); try done.
  { intros _. by rewrite Hin. }
  { apply loop_inv_initial. lia. }
  destruct (parallel_phase bz_stream p o ctx _ _ order s Hn Hperm Hrun)
    as (Hinv & flags & t1 & Hlenf & Henv & _ & _ & Hcount & Hentries).
  rewrite (main_of_steps _ _ _ _ _ _ _ _ _ Hstart Hrun).
  simpl in Herr. assert (Forall (λ f, f = false) flags) as Hflags
    by (apply failed_count_zero; lia).
  unfold finish. rewrite decide_False by lia.
  destruct Hff as (_ & _ & _ & _ & Hopen & Hwrite).
  unfold write_bzip2_file. rewrite Hopen.
  destruct (write_loop_holds (write_limit o) (compressed_blocks s) (mem s)
              (block_payload bz_stream p ctx (files w))
              (loop_indices (num_blocks ctx)) []) as [Hfull _].
  { intros i Hi. rewrite <- Hperm in Hi.
    destruct (Hdata i Hi) as (b & Hb & [a Ha]).
    apply list_elem_of_lookup in Hi as [k Hk].
    destruct (lookup_lt_is_Some_2 flags k) as [f Hf].
    { rewrite Hlenf. by eapply lookup_lt_Some. }
    destruct (Hentries k i f Hk Hf) as (b' & Hb' & _ & Hgood). simplify_eq.
    exists b. split; [done|]. destruct Hgood as [Hsz [?|(a' & Ha' & Hc)]]; [|congruence|].
    { rewrite Forall_forall in Hflags. apply Hflags. by eapply list_elem_of_lookup_2. }
    exists a'. done. }
  rewrite Hfull.
  2:{ apply Forall_forall. intros i _ b _. unfold full_write. by rewrite Hwrite. }
  cbn [mbind option_bind].
  destruct (cleanup_blocks_safe _ _ Hinv) as [h ->]. cbn [mbind option_bind].
  rewrite decide_False by (intros Hne; by apply Hne). eauto.
Qed.

End FaultFreeRun.

(** ** The resident loop runs to its end when the plan is in range *)

Section ResidentTotality.

Variable bz_stream : bytes → bytes.

Lemma iteration_total_in_range o ctx i s :
  in_range ctx → Z.of_nat (length (file_data ctx)) = file_size ctx →
  loop_inv (Z.to_nat (num_blocks ctx)) s → (i < Z.to_nat (num_blocks ctx))%nat →
  is_Some (iteration bz_stream o ctx i s).
Proof.
  intros Hrange Hlen (Hwf & Hlen' & _) Hi.
  destruct (block_input_in_range ctx (file_data ctx) i Hrange Hlen ltac:(lia))
    as (Hin & _ & _).
  unfold iteration, read_at. rewrite decide_True by lia. cbn [mbind option_bind].
  destruct (lookup_lt_is_Some_2 (compressed_blocks s) i) as [output ->]; [lia|].
  cbn [mbind option_bind].
  match goal with |- is_Some (compress_block _ ?e ?inp ?n ?out ?h ≫= _) =>
    destruct (compress_block_total bz_stream e inp n out h Hwf) as [[[r b] h'] ->]
  end.
  by eexists.
Qed.

Lemma run_iterations_total p o ctx order s :
  p = OnDemand ∨ (in_range ctx ∧ Z.of_nat (length (file_data ctx)) = file_size ctx) →
  Forall (λ i, (i < Z.to_nat (num_blocks ctx))%nat) order →
  loop_inv (Z.to_nat (num_blocks ctx)) s →
  is_Some (run_iterations (body_of bz_stream p o ctx) order s).
Proof.
  intros Hp Hlt. revert s. induction Hlt as [|i rest Hi _ IH]; intros s Hinv; simpl.
  - by eexists.
  - assert (is_Some (body_of bz_stream p o ctx i s)) as [s1 Hs1].
    { destruct p; simpl.
      - destruct Hp as [?|[Hrange Hlen]]; [done|]. by apply iteration_total_in_range.
      - by eapply iteration_mem_total. }
    rewrite Hs1. cbn [mbind option_bind]. apply IH.
    eapply (loop_inv_of_run bz_stream p o ctx [i]); [exact Hinv|].
    simpl. by rewrite Hs1.
Qed.

End ResidentTotality.

Lemma bz_fits_store_stream : bz_fits store_stream.
Proof.
  intros src _. unfold store_stream. simpl length.
  assert (0 ≤ Z.of_nat (length src) / 100) by (apply Z.div_pos; lia). lia.
Qed.

Lemma fault_free_calm : fault_free calm.
Proof. by split_and!. Qed.







(** * Further properties of the programs *)

(** ** The block plan *)

(** X1: while [file_size + BLOCK_SIZE] fits 32 bits, the plan both programs
    compute has [ceil(file_size / BLOCK_SIZE)] ranges; they start at 0, follow
    each other without a gap, end at [file_size], all but the last have
    [BLOCK_SIZE] bytes and the last has between 1 and [BLOCK_SIZE]. *)
Theorem plan_covers_input_in_range (fs BS : Z) :
  0 ≤ fs → 2 ≤ BS → fs + BS ≤ 2 ^ 32 →
  ∃ plan, block_plan fs BS = Some plan
          ∧ plan_covers fs BS plan
          ∧ Z.of_nat (length plan) = (fs + BS - 1) / BS
          ∧ (fs = 0 → plan = []).
Proof.
  intros Hfs HBS Hfit.
  destruct (block_plan_in_range fs BS Hfs HBS Hfit) as (plan & Hplan & Hcovers).
  exists plan. split_and!; [done|done| |].
  - unfold block_plan in Hplan. rewrite num_blocks_of_in_range in Hplan by done.
    cbn [mbind option_bind] in Hplan. injection Hplan as <-.
    unfold loop_indices. rewrite length_fmap, length_seq.
    apply Z2Nat.id, Z.div_pos; lia.
  - intros ->. unfold block_plan in Hplan. rewrite num_blocks_of_in_range in Hplan by done.
    cbn [mbind option_bind] in Hplan. injection Hplan as <-.
    rewrite Z.div_small by lia. done.
Qed.

Lemma plan_covers_input_in_range_witness :
  ∃ plan, block_plan 2560 1024 = Some plan
          ∧ plan_covers 2560 1024 plan
          ∧ Z.of_nat (length plan) = (2560 + 1024 - 1) / 1024
          ∧ (2560 = 0 → plan = []).
Proof. apply (plan_covers_input_in_range 2560 1024); lia. Defined.

Lemma to_int_le z : 0 ≤ z → to_int z ≤ z.
Proof.
  intros Hz. unfold to_int. pose proof (Z.mod_le (z + 2 ^ 31) (2 ^ 32)). lia.
Qed.

Lemma to_uint_wrap_once z : 2 ^ 32 ≤ z < 2 ^ 33 → to_uint z = z - 2 ^ 32.
Proof.
  intros Hz. unfold to_uint.
  replace z with (z - 2 ^ 32 + 1 * 2 ^ 32) at 1 by lia.
  rewrite Z_mod_plus_full. apply Z.mod_small. lia.
Qed.

(** X2: whatever the size of the input, also where the 32-bit arithmetic
    wraps around, the block an iteration of the loop works on has at least
    one byte and at most [BLOCK_SIZE]: the buffer the on-demand program
    allocates per block is never larger than a block. *)
Theorem block_length_within_block_size (fs BS n i : Z) :
  0 ≤ fs < 2 ^ 62 → 0 < BS < 2 ^ 31 →
  num_blocks_of fs BS = Some n →
  0 ≤ i < n →
  0 < block_length (block_offset_mem i BS) BS fs ≤ BS
  ∧ 0 < block_length (block_offset i BS) BS fs ≤ BS.
Proof.
  intros Hfs HBS Hn Hi. rewrite <- block_offset_mem_eq.
  cut (0 < block_length (block_offset_mem i BS) BS fs ≤ BS); [tauto|].
  unfold num_blocks_of, long_div in Hn.
  rewrite (to_long_small (fs + BS)) in Hn by lia.
  rewrite (to_long_small (fs + BS - 1)) in Hn by lia.
  rewrite decide_False in Hn by lia. rewrite decide_False in Hn by (unfold LONG_MIN; lia).
  cbn [mbind option_bind] in Hn. rewrite Z.quot_div_nonneg in Hn by lia.
  injection Hn as Hn.
  pose proof (Z.mul_div_le (fs + BS - 1) BS ltac:(lia)) as Hq.
  assert (0 ≤ (fs + BS - 1) / BS) as Hq0 by (apply Z.div_pos; lia).
  pose proof (to_int_le _ Hq0) as Hle. rewrite Hn in Hle.
  assert (i * BS + BS ≤ fs + BS - 1) as Hinside by nia.
  assert (0 ≤ i * BS) by nia.
  unfold block_length, block_offset_mem. rewrite (to_uint_small BS) by lia.
  destruct (decide (fs < 2 ^ 32)) as [Hsmall|Hlarge].
  - rewrite (to_long_small (i * BS)) by lia. rewrite (to_uint_small (i * BS)) by lia.
    destruct (decide (i * BS + BS < 2 ^ 32)) as [Hnowrap|Hwrap].
    + rewrite (to_uint_small (i * BS + BS)) by lia.
      destruct (decide (i * BS + BS > fs)); [|lia].
      rewrite (to_long_small (fs - i * BS)) by lia.
      rewrite (to_uint_small (fs - i * BS)) by lia. lia.
    + rewrite (to_uint_wrap_once (i * BS + BS)) by lia.
      rewrite decide_False by lia. lia.
  - assert (∀ z, ¬ to_uint z > fs) as Hnever.
    { intros z. unfold to_uint. pose proof (Z.mod_pos_bound z (2 ^ 32)). lia. }
    rewrite decide_False by apply Hnever. lia.
Qed.

Lemma block_length_within_block_size_witness :
  0 < block_length (block_offset_mem 4660 921600) 921600 4294967295 ≤ 921600
  ∧ 0 < block_length (block_offset 4660 921600) 921600 4294967295 ≤ 921600.
Proof.
  apply (block_length_within_block_size 4294967295 921600 4661 4660).
  - lia.
  - lia.
  - reflexivity.
  - lia.
Defined.

(** ** The command line *)

(** X3: when [-b] is given several times with positive arguments, the last
    one is the block size. *)
Theorem last_block_size_option_wins (opts : list getopt_result) (v : Z)
    (input output : string) :
  Forall (λ x, ∃ k, x = OptB k ∧ 0 < k) opts →
  0 < v →
  configure {| options := opts ++ [OptB v]; operands := [input; output] |}
  = inr (v, input, output).
Proof.
  intros Hopts Hv. unfold configure. cbn [options operands].
  assert (∀ k, getopt_loop (opts ++ [OptB v]) k = inr v) as ->; [|done].
  induction Hopts as [|x opts (k' & -> & Hk') _ IH]; intros k; simpl.
  - by rewrite decide_False by lia.
  - rewrite decide_False by lia. apply IH.
Qed.

Lemma last_block_size_option_wins_witness :
  configure {| options := [OptB 64; OptB 900] ++ [OptB 128]; operands := ["in"; "out"] |}
  = inr (128, "in", "out").
Proof.
  apply (last_block_size_option_wins [OptB 64; OptB 900] 128 "in" "out"); [|lia].
  repeat constructor; eexists; (split; [reflexivity|lia]).
Defined.

(** ** What [compress_block] does to the heap *)

Section HeapAccounting.

Variable bz_stream : bytes → bytes.

Lemma compress_block_cells e input n output h r b h' :
  heap_wf h →
  compress_block bz_stream e input n output h = Some (r, b, h') →
  (r = -1 ∧ data b = None ∧ cells h' = cells h)
  ∨ (r = 0 ∧ realloc_ok e = true ∧ data b = Some (next_addr h)
     ∧ cells h' = <[next_addr h := bz_stream input]> (cells h))
  ∨ (r = 0 ∧ realloc_ok e = false ∧ data b = None
     ∧ ∃ buf, cells h' = <[next_addr h := buf]> (cells h)
              ∧ length buf = Z.to_nat (output_buffer_size n)).
Proof.
  intros Hwf. pose proof (heap_wf_fresh h Hwf) as Hfresh.
  unfold compress_block, malloc, BZ2_bzBuffToBuffCompress, realloc, free.
  destruct (malloc_ok e).
  2:{ intros [= <- <- <-]. left. done. }
  cbn [cells next_addr]. rewrite lookup_insert_eq. cbn [mbind option_bind].
  destruct (bz_gives_up e) as [f|].
  - cbn [mbind option_bind]. rewrite decide_True by apply bz_code_not_ok.
    cbn [cells next_addr]. rewrite lookup_insert_eq. cbn [mbind option_bind].
    intros [= <- <- <-]. left. split_and!; [done|done|]. cbn [cells].
    by apply delete_insert_id.
  - destruct (decide (Z.of_nat (length (bz_stream input)) ≤ output_buffer_size n))
      as [Hfit|Hfit].
    + cbn [mbind option_bind]. rewrite decide_False by (unfold BZ_OK; lia).
      cbn [cells next_addr]. rewrite lookup_insert_eq. cbn [mbind option_bind].
      destruct (realloc_ok e).
      * rewrite Nat2Z.id, take_app3_length, !insert_insert_eq.
        intros [= <- <- <-]. right. left. done.
      * intros [= <- <- <-]. right. right. split_and!; [done|done|done|].
        eexists. rewrite insert_insert_eq. split; [reflexivity|].
        rewrite length_app, length_drop, length_replicate. lia.
    + cbn [mbind option_bind]. rewrite decide_True by done.
      cbn [cells next_addr]. rewrite lookup_insert_eq. cbn [mbind option_bind].
      intros [= <- <- <-]. left. split_and!; [done|done|]. cbn [cells].
      by apply delete_insert_id.
Qed.

(** X4: [compress_block] gives back what it took on every path that returns
    -1: the heap holds the same buffers as before the call.  When it returns
    0 the heap has gained one buffer, at an address that was not in use.  If
    the final [realloc] succeeded that buffer holds the compressed stream
    and the entry points to it; if it failed, the buffer is still allocated
    although the entry's pointer is [NULL]: it is lost. *)
Theorem compress_block_frees_on_failure
    (e : call_env) (input : bytes) (n : Z) (output : CompressedBlock)
    (h h' : heap) (r : Z) (b : CompressedBlock) :
  heap_wf h →
  compress_block bz_stream e input n output h = Some (r, b, h') →
  (r = 0 ∨ r = -1)
  ∧ (r = -1 → cells h' = cells h)
  ∧ (r = 0 → cells h !! next_addr h = None
             ∧ base.size (cells h') = S (base.size (cells h))
             ∧ (realloc_ok e = true →
                data b = Some (next_addr h)
                ∧ cells h' = <[next_addr h := bz_stream input]> (cells h))
             ∧ (realloc_ok e = false →
                data b = None ∧ is_Some (cells h' !! next_addr h))).
Proof.
  intros Hwf Hcb. pose proof (heap_wf_fresh h Hwf) as Hfresh.
  destruct (compress_block_cells _ _ _ _ _ _ _ _ Hwf Hcb)
    as [(-> & Hd & Hc)|[(-> & Hre & Hd & Hc)|(-> & Hre & Hd & buf & Hc & _)]].
  - split_and!; [by right|done|done].
  - split_and!; [by left|done|]. intros _. rewrite Hc.
    split_and!; [done|by apply map_size_insert_None|done|congruence].
  - split_and!; [by left|done|]. intros _. rewrite Hc.
    split_and!; [done|by apply map_size_insert_None|congruence|].
    intros _. split; [done|]. rewrite lookup_insert_eq. by eexists.
Qed.

End HeapAccounting.

Lemma compress_block_frees_on_failure_witness :
  ∃ (b : CompressedBlock) (h' : heap),
    compress_block store_stream
      {| malloc_ok := true; bz_gives_up := Some BzMemError; realloc_ok := true |}
      [Byte.x61] 1 zero_block sample_heap = Some (-1, b, h')
    ∧ cells h' = cells sample_heap.
Proof.
  eexists _, _. split; [vm_compute; reflexivity|].
  eapply (compress_block_frees_on_failure store_stream
            {| malloc_ok := true; bz_gives_up := Some BzMemError; realloc_ok := true |}
            [Byte.x61] 1 zero_block sample_heap).
  - intros a [x Hx]. unfold sample_heap in *. cbn [cells next_addr] in *.
    apply lookup_insert_Some in Hx as [[<- _]|[_ Hx]]; [lia|].
    apply lookup_singleton_Some in Hx as [<- _]. lia.
  - vm_compute. reflexivity.
  - reflexivity.
Defined.

(** ** No buffer is left behind *)

Section NoLeak.

Variable bz_stream : bytes → bytes.

Lemma compress_insert_tight e input n i h blocks output r b h' :
  heap_wf h → heap_tight h blocks →
  blocks !! i = Some output → data output = None →
  realloc_ok e = true →
  compress_block bz_stream e input n output h = Some (r, b, h') →
  heap_tight h' (<[i := b]> blocks).
Proof.
  intros Hwf Htight Hout Hnull Hre Hcb. unfold heap_tight in Htight.
  pose proof (lookup_lt_Some _ _ _ Hout) as Hi.
  assert (∀ a, (∃ j bj, blocks !! j = Some bj ∧ data bj = Some a)
               ↔ (∃ j bj, j ≠ i ∧ <[i := b]> blocks !! j = Some bj ∧ data bj = Some a))
    as Hothers.
  { intros a. split.
    - intros (j & bj & Hj & Ha). exists j, bj.
      assert (j ≠ i) by (intros ->; congruence).
      by rewrite list_lookup_insert_ne.
    - intros (j & bj & Hne & Hj & Ha). rewrite list_lookup_insert_ne in Hj by done. eauto. }
  destruct (compress_block_cells bz_stream _ _ _ _ _ _ _ _ Hwf Hcb)
    as [(_ & Hd & Hc)|[(_ & _ & Hd & Hc)|(_ & ? & _)]]; [| |congruence].
  - intros a. rewrite Hc, Htight, Hothers. split.
    + intros (j & bj & _ & ?). eauto.
    + intros (j & bj & Hj & Ha). exists j, bj. split; [|done].
      intros ->. rewrite list_lookup_insert_eq in Hj by done. congruence.
  - intros a. rewrite Hc. split.
    + intros [<-|Hlive]%lookup_insert_is_Some'.
      * exists i, b. by rewrite list_lookup_insert_eq.
      * apply Htight, Hothers in Hlive as (j & bj & _ & ?). eauto.
    + intros (j & bj & Hj & Ha). apply lookup_insert_is_Some'.
      destruct (decide (j = i)) as [->|Hne].
      * rewrite list_lookup_insert_eq in Hj by done. left. congruence.
      * right. apply Htight, Hothers. eauto.
Qed.

Lemma body_tight p o ctx i s s' output :
  heap_wf (mem s) → heap_tight (mem s) (compressed_blocks s) →
  compressed_blocks s !! i = Some output → data output = None →
  realloc_ok (block_env o i) = true →
  body_of bz_stream p o ctx i s = Some s' →
  heap_tight (mem s') (compressed_blocks s')
  ∧ ∃ b, compressed_blocks s' = <[i := b]> (compressed_blocks s).
Proof.
  intros Hwf Htight Hout Hnull Hre Hit.
  assert (compressed_blocks s = <[i := output]> (compressed_blocks s)) as Hsame
    by (by rewrite list_insert_id).
  destruct p; simpl in Hit.
  - unfold iteration in Hit. destruct (read_at _ _ _) as [input|]; [|done].
    cbn [mbind option_bind] in Hit. rewrite Hout in Hit. cbn [mbind option_bind] in Hit.
    destruct (compress_block _ _ _ _ _ _) as [[[r b] h']|] eqn:Hcb; [|done].
    cbn [mbind option_bind] in Hit. simplify_eq. simpl.
    split; [by eapply compress_insert_tight|eauto].
  - unfold iteration_mem, fopen_read in Hit.
    destruct (if open_ok o (BlockStream i) then _ else _) as [content|];
      [|simplify_eq; simpl; eauto].
    destruct (negb _); [simplify_eq; simpl; eauto|].
    destruct (decide _); [simplify_eq; simpl; eauto|].
    rewrite Hout in Hit. cbn [mbind option_bind] in Hit.
    destruct (compress_block _ _ _ _ _ _) as [[[r b] h']|] eqn:Hcb; [|done].
    cbn [mbind option_bind] in Hit. simplify_eq. simpl.
    split; [by eapply compress_insert_tight|eauto].
Qed.

Lemma run_tight p o ctx order s s' :
  NoDup order →
  loop_inv (length (compressed_blocks s)) s →
  heap_tight (mem s) (compressed_blocks s) →
  (∀ i, i ∈ order → ∃ out, compressed_blocks s !! i = Some out ∧ data out = None) →
  (∀ i, realloc_ok (block_env o i) = true) →
  run_iterations (body_of bz_stream p o ctx) order s = Some s' →
  heap_tight (mem s') (compressed_blocks s').
Proof.
  intros Hnd. revert s. induction Hnd as [|i rest Hi Hnd IH];
    intros s Hinv Htight Hnull Hre Hrun; simpl in Hrun; [by simplify_eq|].
  destruct (body_of bz_stream p o ctx i s) as [s1|] eqn:Hs1; [|done].
  cbn [mbind option_bind] in Hrun.
  destruct (Hnull i) as (out & Hout & Hdata); [left|].
  destruct (body_tight p o ctx i s s1 out) as (Htight1 & b & Htab1); try done.
  { by destruct Hinv. }
  assert (loop_inv (length (compressed_blocks s)) s1) as Hinv1.
  { eapply (loop_inv_of_run bz_stream p o ctx [i]); [exact Hinv|]. simpl. by rewrite Hs1. }
  apply (IH s1); try done.
  - by rewrite Htab1, length_insert.
  - intros j Hj. rewrite Htab1, list_lookup_insert_ne; [apply Hnull; by right|].
    intros <-. done.
Qed.

End NoLeak.

(** What [cleanup_blocks] leaves in the heap: nothing new, and none of the
    buffers the entries it went through point to. *)
Lemma cleanup_loop_cells indices blocks h h' :
  cleanup_loop indices blocks h = Some h' →
  (∀ a x, cells h' !! a = Some x → cells h !! a = Some x)
  ∧ (∀ i b a, i ∈ indices → blocks !! i = Some b → data b = Some a →
       cells h' !! a = None).
Proof.
  revert h. induction indices as [|i rest IH]; intros h Hc; cbn [cleanup_loop] in Hc.
  - simplify_eq. split; [done|]. intros i b a Hi. by apply elem_of_nil in Hi.
  - destruct (blocks !! i) as [bi|] eqn:Hbi; [|done]. cbn [mbind option_bind] in Hc.
    destruct (match data bi with Some a => free (Some a) h | None => Some h end)
      as [h1|] eqn:Hfree; [|done].
    cbn [mbind option_bind] in Hc. destruct (IH h1 Hc) as [Hsub Hgone].
    assert (∀ a x, cells h1 !! a = Some x → cells h !! a = Some x) as Hsub1.
    { destruct (data bi) as [ai|]; [|by simplify_eq].
      unfold free in Hfree. destruct (cells h !! ai); [|done]. simplify_eq. simpl.
      intros a x [_ ?]%lookup_delete_Some. done. }
    split; [by eauto|].
    intros j b a [->|Hj]%elem_of_cons Hb Ha; [|by eauto].
    simplify_eq. rewrite Ha in Hfree. unfold free in Hfree.
    destruct (cells h !! a); [|done]. simplify_eq.
    destruct (cells h' !! a) as [x|] eqn:Hx; [|done].
    apply Hsub in Hx. simpl in Hx. by rewrite lookup_delete_eq in Hx.
Qed.

(** X5: when the final [realloc] never fails, no buffer of
    [compress_block] outlives a run that has gone through its parallel loop,
    whichever blocks failed: once [cleanup_blocks] has been called, every
    buffer [compress_block] allocated has been freed, by [compress_block]
    itself on its failure paths or by [cleanup_blocks]. *)
Theorem cleanup_frees_every_buffer
    (bz_stream : bytes → bytes) (p : pipeline) (o : oracle) (c : cmdline) (w : world)
    (ctx : context) (s0 s : loop_state) (nthreads : nat) (order : list nat) :
  startup_of p o c w = Some (inr (ctx, s0)) →
  omp_for nthreads (Z.to_nat (num_blocks ctx)) order →
  (∀ i, realloc_ok (block_env o i) = true) →
  run_iterations (body_of bz_stream p o ctx) order s0 = Some s →
  ∃ h', cleanup_blocks (compressed_blocks s) (num_blocks ctx) (mem s) = Some h'
        ∧ cells h' = ∅.
Proof.
  intros Hstart Homp%omp_for_permutation Hre Hrun.
  destruct (startup_of_initial p o c w ctx s0 Hstart) as (Hn & t0 & -> & _).
  assert (loop_inv (Z.to_nat (num_blocks ctx))
            (initial_state (num_blocks ctx) {| files := files w; trace := trace w ++ t0 |}))
    as Hinv0 by (apply loop_inv_initial; lia).
  pose proof (loop_inv_of_run _ _ _ _ _ _ _ _ Hinv0 Hrun) as Hinv.
  assert (heap_tight (mem s) (compressed_blocks s)) as Htight.
  { eapply (run_tight bz_stream p o ctx order); [| | | |exact Hre|exact Hrun].
    - rewrite Homp. apply NoDup_seq.
    - simpl. by rewrite length_replicate.
    - intros a. simpl. split.
      + intros [x Hx]. by rewrite lookup_empty in Hx.
      + intros (i & b & [-> _]%lookup_replicate & ?). done.
    - intros i Hi. rewrite Homp in Hi. apply elem_of_seq in Hi. exists zero_block.
      simpl. split; [|done]. apply lookup_replicate_2. lia. }
  destruct (cleanup_blocks_safe _ _ Hinv) as [h' Hclean]. exists h'. split; [done|].
  destruct (cleanup_loop_cells _ _ _ _ Hclean) as [Hsub Hgone].
  apply map_empty. intros a. destruct (cells h' !! a) as [x|] eqn:Hx; [|done].
  destruct (proj1 (Htight a)) as (i & b & Hb & Ha); [eexists; eauto|].
  rewrite (Hgone i b a) in Hx; [done| |done|done].
  apply elem_of_seq. apply lookup_lt_Some in Hb. destruct Hinv as (_ & Hlen & _). lia.
Qed.

Lemma cleanup_frees_every_buffer_witness :
  ∃ s h', run_iterations (iteration_mem store_stream calm
                            {| input_filename := "big"; output_filename := "out";
                               BLOCK_SIZE := 1024; file_size := 2560; num_blocks := 3;
                               file_data := [] |}) [1; 0; 2]%nat
            (initial_state 3 (log (EvStat "big") big_world)) = Some s
    ∧ cleanup_blocks (compressed_blocks s) 3 (mem s) = Some h'
    ∧ cells h' = ∅.
Proof.
  assert (∃ s, run_iterations (iteration_mem store_stream calm
                            {| input_filename := "big"; output_filename := "out";
                               BLOCK_SIZE := 1024; file_size := 2560; num_blocks := 3;
                               file_data := [] |}) [1; 0; 2]%nat
            (initial_state 3 (log (EvStat "big") big_world)) = Some s) as [s Hs]
    by (vm_compute; eexists; reflexivity).
  destruct (cleanup_frees_every_buffer store_stream OnDemand calm small_blocks big_world
              {| input_filename := "big"; output_filename := "out";
                 BLOCK_SIZE := 1024; file_size := 2560; num_blocks := 3;
                 file_data := [] |}
              (initial_state 3 (log (EvStat "big") big_world)) s 2 [1; 0; 2]%nat)
    as (h' & Hclean & Hempty).
  - vm_compute. reflexivity.
  - apply omp_for_out_of_order.
  - reflexivity.
  - exact Hs.
  - exists s, h'. split; [exact Hs|]. split; [exact Hclean | exact Hempty].
Defined.

(** ** [cleanup_blocks] is not to be called twice *)

Lemma cleanup_loop_dead indices blocks h :
  (∃ i b a, i ∈ indices ∧ blocks !! i = Some b ∧ data b = Some a) →
  (∀ i b a, i ∈ indices → blocks !! i = Some b → data b = Some a → cells h !! a = None) →
  cleanup_loop indices blocks h = None.
Proof.
  induction indices as [|j rest IH]; intros (i & b & a & Hi & Hb & Ha) Hdead.
  - by apply elem_of_nil in Hi.
  - cbn [cleanup_loop]. destruct (blocks !! j) as [bj|] eqn:Hbj; [|done].
    cbn [mbind option_bind].
    destruct (data bj) as [aj|] eqn:Haj.
    + unfold free. rewrite (Hdead j bj aj); [done|by left|done|done].
    + cbn [mbind option_bind]. apply IH.
      * apply elem_of_cons in Hi as [->|Hi]; [congruence|]. eauto 6.
      * intros k bk ak Hk. apply Hdead. by right.
Qed.

(** X6: [cleanup_blocks] frees the buffers and leaves the pointers in the
    table as they are.  So when it has been through a table that has a
    pointer other than [NULL] among its first [num_blocks] entries, a second
    call on the same table frees a dead pointer: it is undefined. *)
Theorem cleanup_blocks_twice_is_undefined
    (blocks : list CompressedBlock) (num_blocks : Z) (h h' : heap)
    (i : nat) (b : CompressedBlock) (a : nat) :
  Z.of_nat i < num_blocks →
  blocks !! i = Some b →
  data b = Some a →
  cleanup_blocks blocks num_blocks h = Some h' →
  cells h' !! a = None
  ∧ cleanup_blocks blocks num_blocks h' = None.
Proof.
  intros Hi Hb Ha Hclean. unfold cleanup_blocks in *.
  destruct (cleanup_loop_cells _ _ _ _ Hclean) as [_ Hgone].
  assert (i ∈ loop_indices num_blocks) as Hin by (apply elem_of_seq; lia).
  split; [by eapply Hgone|].
  apply cleanup_loop_dead; [|done]. eauto 6.
Qed.

Lemma cleanup_blocks_twice_is_undefined_witness :
  ∃ h', cleanup_blocks sample_table 2 sample_heap = Some h'
        ∧ cleanup_blocks sample_table 2 h' = None.
Proof.
  assert (∃ h', cleanup_blocks sample_table 2 sample_heap = Some h') as [h' Hclean]
    by (vm_compute; eexists; reflexivity).
  exists h'. split; [exact Hclean|].
  apply (cleanup_blocks_twice_is_undefined sample_table 2 sample_heap h' 1
           {| data := Some 1%nat; size := 2; original_size := 4 |} 1).
  - lia.
  - reflexivity.
  - reflexivity.
  - exact Hclean.
Defined.

(** ** Decompressing the output

    The [test] target of the Makefile runs the program, hands the output to
    [bzip2 -d] and compares the result with the input.  A decoder for a
    sequence of streams undoes one stream and goes on with what follows
    it. *)

Lemma blocks_concat (content : bytes) (fs BS : Z) :
  0 ≤ fs → 2 ≤ BS → fs + BS ≤ 2 ^ 32 →
  Z.of_nat (length content) = fs →
  concat (block_input content BS fs <$> loop_indices ((fs + BS - 1) / BS)) = content.
Proof.
  intros Hfs HBS Hfit Hlen.
  assert (∀ k : nat, Z.of_nat k ≤ (fs + BS - 1) / BS →
            concat (block_input content BS fs <$> seq 0 k)
            = take (Z.to_nat (Z.min fs (Z.of_nat k * BS))) content) as Hprefix.
  { induction k as [|k IH]; intros Hk.
    - simpl. rewrite Z.min_r by lia. done.
    - rewrite seq_S, fmap_app, concat_app, IH by lia. simpl. rewrite app_nil_r.
      destruct (block_range_in_range fs BS Hfs HBS Hfit (Z.of_nat k))
        as (Hrange & Hpos & Hend); [lia|].
      unfold block_range_mem in Hrange. injection Hrange as Hoff Hlen'.
      rewrite Hoff in Hlen'. unfold block_input.
      rewrite <- block_offset_mem_eq, Hoff, Hlen'.
      assert (0 ≤ Z.of_nat k * BS) by nia.
      rewrite (Z.min_r fs) by lia. rewrite take_take_drop. f_equal. lia. }
  pose proof (Z.mul_succ_div_gt (fs + BS - 1) BS ltac:(lia)).
  assert (0 ≤ (fs + BS - 1) / BS) by (apply Z.div_pos; lia).
  unfold loop_indices. rewrite Hprefix by lia.
  apply take_ge. rewrite Z2Nat.id by done. lia.
Qed.

Lemma decode_streams (bz_stream decode : bytes → bytes) (f : nat → bytes) indices :
  (∀ x rest, decode (bz_stream x ++ rest) = x ++ decode rest) →
  decode [] = [] →
  decode (concat ((λ i, bz_stream (f i)) <$> indices)) = concat (f <$> indices).
Proof.
  intros Hone Hnil. induction indices as [|i rest IH]; [done|].
  rewrite !fmap_cons. cbn [concat]. by rewrite Hone, IH.
Qed.

Lemma unframe_framed x rest : unframe (framed_stream x ++ rest) = x ++ unframe rest.
Proof.
  unfold framed_stream. induction x as [|b x IH]; simpl; [done|]. by rewrite IH.
Qed.



(** ** The statistics *)

Lemma total_loop_sum (P : nat → bytes) indices blocks acc :
  (∀ i, i ∈ indices → ∃ b, blocks !! i = Some b ∧ size b = Z.of_nat (length (P i))) →
  0 ≤ acc →
  acc + Z.of_nat (length (concat (P <$> indices))) < 2 ^ 63 →
  total_loop indices blocks acc
  = Some (acc + Z.of_nat (length (concat (P <$> indices)))).
Proof.
  revert acc. induction indices as [|i rest IH]; intros acc Hsizes Hacc Hfit.
  - simpl. f_equal. lia.
  - rewrite fmap_cons in Hfit |- *. cbn [concat] in Hfit |- *.
    rewrite length_app, Nat2Z.inj_add in Hfit |- *.
    destruct (Hsizes i) as (b & Hb & Hsz); [left|].
    cbn [total_loop]. rewrite Hb. cbn [mbind option_bind].
    rewrite Hsz, to_long_small by lia. rewrite IH.
    + f_equal. lia.
    + intros j Hj. apply Hsizes. by right.
    + lia.
    + lia.
Qed.

(** The table after a run that exits with status 0: every entry describes
    the compressed stream of its block. *)
Lemma successful_run_entries bz_stream p o c w ctx s0 s order w' :
  startup_of p o c w = Some (inr (ctx, s0)) →
  order ≡ₚ loop_indices (num_blocks ctx) →
  run_iterations (body_of bz_stream p o ctx) order s0 = Some s →
  main_of bz_stream p o order c w = Some (0, w') →
  ∀ i, i ∈ loop_indices (num_blocks ctx) →
    ∃ b, compressed_blocks s !! i = Some b
         ∧ good_entry (mem s) (block_payload bz_stream p ctx (files w) i) b.
Proof.
  intros Hstart Hperm Hrun Hmain.
  rewrite (main_of_steps _ _ _ _ _ _ _ _ _ Hstart Hrun) in Hmain.
  destruct (startup_of_initial p o c w ctx s0 Hstart) as (Hn & t0 & -> & _).
  destruct (parallel_phase bz_stream p o ctx _ _ order s Hn Hperm Hrun)
    as (Hinv & flags & t1 & Hlen & Henv & _ & _ & Hcount & Hentries).
  pose proof (failed_count_bounds flags) as Hbounds.
  unfold finish in Hmain.
  destruct (decide (compression_errors s > 0)) as [Hpos|Hzero].
  { destruct (cleanup_blocks _ _ _); [|done]. by simplify_eq. }
  assert (Forall (λ f, f = false) flags) as Hflags by (apply failed_count_zero; lia).
  intros i Hi. rewrite <- Hperm in Hi. apply list_elem_of_lookup in Hi as [k Hk].
  destruct (lookup_lt_is_Some_2 flags k) as [f Hf].
  { rewrite Hlen. by eapply lookup_lt_Some. }
  destruct (Hentries k i f Hk Hf) as (b & Hb & _ & Hgood).
  exists b. split; [done|]. apply Hgood.
  rewrite Forall_forall in Hflags. apply Hflags. by eapply list_elem_of_lookup_2.
Qed.



(** ** The trace of a run *)

Lemma getopt_loop_inl opts k d :
  getopt_loop opts k = inl d → d = InvalidBlockSize ∨ d = Usage.
Proof.
  revert k. induction opts as [|[v|] opts IH]; intros k; simpl; [done| |].
  - destruct (decide (v ≤ 0)); [intros [= <-]; by left|apply IH].
  - intros [= <-]. by right.
Qed.

Lemma configure_inl c d : configure c = inl d → d = InvalidBlockSize ∨ d = Usage.
Proof.
  unfold configure. destruct (getopt_loop (options c) 900) as [d'|kb] eqn:Hg.
  - intros [= <-]. by eapply getopt_loop_inl.
  - destruct (operands c) as [|? [|? [|? ?]]]; intros [= <-]; by right.
Qed.

Lemma startup_of_exit p o c w code w1 :
  startup_of p o c w = Some (inl (code, w1)) →
  code = 1
  ∧ ∃ t d, Forall quiet t ∧ d ≠ FailedToWriteOutput
           ∧ w1 = {| files := files w; trace := trace w ++ t ++ [EvDiag d] |}.
Proof.
  assert (∀ d, d = InvalidBlockSize ∨ d = Usage → d ≠ FailedToWriteOutput) as Hd
    by (by intros d [->| ->]).
  destruct p; simpl.
  - unfold startup. destruct (configure c) as [d|[[kb i] out]] eqn:Hc.
    { intros [= <- <-]. split; [done|]. exists [], d. split_and!; [done| |done].
      by eapply Hd, configure_inl. }
    unfold fopen_read, get_file_size, exit_with, log. cbn [files trace].
    destruct (if open_ok o InputStream then _ else _).
    2:{ intros [= <- <-]. split; [done|]. exists [EvOpenRead i], ErrorOpeningInput.
        split_and!; [by repeat constructor|done|]. by rewrite <- app_assoc. }
    destruct (num_blocks_of _ _); [|done]. cbn [mbind option_bind].
    destruct (negb _).
    { intros [= <- <-]. split; [done|]. exists [EvOpenRead i; EvStat i], AllocationFailed.
      split_and!; [by repeat constructor|done|]. by rewrite <- !app_assoc. }
    destruct (negb _).
    { intros [= <- <-]. split; [done|].
      exists [EvOpenRead i; EvStat i], AllocationFailedFileData.
      split_and!; [by repeat constructor|done|]. by rewrite <- !app_assoc. }
    destruct (decide _); [|done].
    intros [= <- <-]. split; [done|]. exists [EvOpenRead i; EvStat i], ErrorReadingFile.
    split_and!; [by repeat constructor|done|]. by rewrite <- !app_assoc.
  - unfold startup_mem. destruct (configure c) as [d|[[kb i] out]] eqn:Hc.
    { intros [= <- <-]. split; [done|]. exists [], d. split_and!; [done| |done].
      by eapply Hd, configure_inl. }
    unfold get_file_size, exit_with, log. cbn [files trace].
    destruct (num_blocks_of _ _); [|done]. cbn [mbind option_bind].
    destruct (negb _); [|done].
    intros [= <- <-]. split; [done|]. exists [EvStat i], AllocationFailed.
    split_and!; [by repeat constructor|done|]. by rewrite <- !app_assoc.
Qed.

Lemma startup_of_started p o c w ctx s0 :
  startup_of p o c w = Some (inr (ctx, s0)) →
  (∃ kb, configure c = inr (kb, input_filename ctx, output_filename ctx))
  ∧ s0 = initial_state (num_blocks ctx)
           {| files := files w; trace := trace w ++ startup_events p ctx |}.
Proof.
  destruct p; simpl; intros Hstart.
  - apply startup_inr in Hstart as (kb & content & Hc & _ & _ & _ & _ & _ & _ & _ & ->).
    split; [by eauto|]. unfold log. cbn [files trace]. by rewrite <- app_assoc.
  - apply startup_mem_inr in Hstart as (kb & Hc & _ & _ & _ & _ & ->).
    split; [by eauto|]. done.
Qed.

Lemma body_events bz_stream p o ctx i s s' :
  body_of bz_stream p o ctx i s = Some s' →
  ∃ f, env s' = {| files := files (env s);
                   trace := trace (env s) ++ iteration_events p ctx i f |}.
Proof.
  destruct p; simpl; intros Hit.
  - unfold iteration in Hit. destruct (read_at _ _ _); [|done].
    cbn [mbind option_bind] in Hit. destruct (compressed_blocks s !! i); [|done].
    cbn [mbind option_bind] in Hit.
    destruct (compress_block _ _ _ _ _ _) as [[[r b] h']|]; [|done].
    cbn [mbind option_bind] in Hit. simplify_eq. eexists. reflexivity.
  - unfold iteration_mem, fopen_read in Hit.
    assert (∀ f blocks h,
              env (end_iteration i f blocks h (log (EvOpenRead (input_filename ctx)) (env s)) s)
              = {| files := files (env s);
                   trace := trace (env s) ++ [EvOpenRead (input_filename ctx); EvIteration i f] |})
      as Hend.
    { intros. unfold end_iteration, log. cbn [env files trace]. by rewrite <- app_assoc. }
    destruct (if open_ok o (BlockStream i) then _ else _);
      [|simplify_eq; eexists; apply Hend].
    destruct (negb _); [simplify_eq; eexists; apply Hend|].
    destruct (decide _); [simplify_eq; eexists; apply Hend|].
    destruct (compressed_blocks s !! i); [|done]. cbn [mbind option_bind] in Hit.
    destruct (compress_block _ _ _ _ _ _) as [[[r b] h']|]; [|done].
    cbn [mbind option_bind] in Hit. simplify_eq. eexists. apply Hend.
Qed.

Lemma run_events bz_stream p o ctx order s s' :
  run_iterations (body_of bz_stream p o ctx) order s = Some s' →
  ∃ flags, length flags = length order
    ∧ env s' = {| files := files (env s);
                  trace := trace (env s) ++ loop_events p ctx order flags |}.
Proof.
  revert s. induction order as [|i rest IH]; intros s Hrun; simpl in Hrun.
  - simplify_eq. exists []. split; [done|]. unfold loop_events. simpl.
    rewrite app_nil_r. by destruct (env s').
  - destruct (body_of bz_stream p o ctx i s) as [s1|] eqn:Hs1; [|done].
    cbn [mbind option_bind] in Hrun.
    destruct (body_events _ _ _ _ _ _ _ Hs1) as [f Hf].
    destruct (IH _ Hrun) as (flags & Hlen & Henv).
    exists (f :: flags). split; [simpl; by rewrite Hlen|].
    rewrite Henv, Hf. unfold loop_events. cbn [files trace zip_with concat].
    by rewrite <- app_assoc.
Qed.

Lemma loop_events_quiet p ctx order flags : Forall quiet (loop_events p ctx order flags).
Proof.
  unfold loop_events. revert flags. induction order as [|i rest IH]; intros [|f flags];
    simpl; try done.
  apply Forall_app. split; [|apply IH]. destruct p; by repeat constructor.
Qed.

Lemma loop_events_opens p ctx order flags :
  length flags = length order →
  length (filter (λ e, is_open_read e = true) (loop_events p ctx order flags))
  = match p with Resident => 0%nat | OnDemand => length order end.
Proof.
  unfold loop_events. revert flags. induction order as [|i rest IH]; intros [|f flags] Hlen;
    simpl in *; try done; [by destruct p|].
  rewrite filter_app, length_app, IH by lia. by destruct p.
Qed.

Lemma main_of_unfold bz_stream p o order c w :
  main_of bz_stream p o order c w
  = match startup_of p o c w with
    | Some (inl e) => Some e
    | Some (inr (ctx, s)) =>
        s ← run_iterations (body_of bz_stream p o ctx) order s; finish o ctx s
    | None => None
    end.
Proof.
  destruct p; simpl; unfold main, main_mem;
    [destruct (startup o c w) as [[?|[??]]|]|destruct (startup_mem o c w) as [[?|[??]]|]];
    reflexivity.
Qed.

(** The ways a run can end: before the output is opened, with a diagnostic
    and the files as they were; with the output not opened or not written
    in full, and [Failed to write output file]; or with status 0. *)
Lemma main_of_outcome bz_stream p o order c w st w1 :
  main_of bz_stream p o order c w = Some (st, w1) →
  ∃ t, Forall quiet t
    ∧ ((st = 1 ∧ ∃ d, d ≠ FailedToWriteOutput
                      ∧ w1 = {| files := files w; trace := trace w ++ t ++ [EvDiag d] |})
       ∨ ∃ kb input output,
           configure c = inr (kb, input, output)
           ∧ ((st = 1
               ∧ w1 = {| files := files w;
                         trace := trace w ++ t
                                  ++ [EvOpenWrite output; EvDiag FailedToWriteOutput] |})
              ∨ ∃ content,
                  files w1 = <[output := content]> (files w)
                  ∧ ((st = 1
                      ∧ trace w1 = trace w ++ t
                                   ++ [EvOpenWrite output; EvDiag FailedToWriteOutput])
                     ∨ (st = 0 ∧ trace w1 = trace w ++ t ++ [EvOpenWrite output])))).
Proof.
  rewrite main_of_unfold.
  destruct (startup_of p o c w) as [[[code w0]|[ctx s0]]|] eqn:Hstart; [| |done].
  { intros [= -> ->]. destruct (startup_of_exit _ _ _ _ _ _ Hstart) as (-> & t & d & ? & ? & ->).
    exists t. split; [done|]. left. eauto. }
  destruct (run_iterations _ order s0) as [s|] eqn:Hrun; [|done].
  cbn [mbind option_bind]. intros Hfin.
  destruct (startup_of_started _ _ _ _ _ _ Hstart) as [[kb Hc] ->].
  destruct (run_events _ _ _ _ _ _ _ Hrun) as (flags & _ & Henv).
  cbn [initial_state env files trace] in Henv. rewrite <- app_assoc in Henv.
  exists (startup_events p ctx ++ loop_events p ctx order flags). split.
  { apply Forall_app. split; [destruct p; by repeat constructor|apply loop_events_quiet]. }
  unfold finish in Hfin. destruct (decide (compression_errors s > 0)).
  { destruct (cleanup_blocks _ _ _); [|done]. cbn [mbind option_bind] in Hfin.
    injection Hfin as <- <-. left. split; [done|].
    exists (CompressionFailed (compression_errors s)). split; [done|].
    unfold log. rewrite Henv. cbn [files trace]. by rewrite <- app_assoc. }
  right. exists kb, (input_filename ctx), (output_filename ctx). split; [done|].
  unfold write_bzip2_file in Hfin. destruct (output_open_ok o).
  - destruct (write_loop _ _ _ _ _) as [[r content]|]; [|done].
    cbn [mbind option_bind] in Hfin. destruct (cleanup_blocks _ _ _); [|done].
    cbn [mbind option_bind] in Hfin. right. exists content.
    destruct (decide (r ≠ 0)); injection Hfin as <- <-; rewrite Henv;
      unfold exit_with, log; cbn [files trace]; (split; [done|]); [left|right];
      (split; [done|]); by rewrite <- !app_assoc.
  - cbn [mbind option_bind] in Hfin. destruct (cleanup_blocks _ _ _); [|done].
    cbn [mbind option_bind] in Hfin. rewrite decide_True in Hfin by done.
    injection Hfin as <- <-. left. split; [done|]. rewrite Henv.
    unfold log. cbn [files trace]. by rewrite <- !app_assoc.
Qed.

(** X9: a run that returns ends with status 0 or 1.  With status 1 the
    last thing it has done is to print one of the diagnostics of [main], and
    it has printed no other; with status 0 it has printed none. *)
Theorem exit_status_and_diagnostics
    (bz_stream : bytes → bytes) (p : pipeline) (o : oracle) (order : list nat)
    (c : cmdline) (w w' : world) (st : Z) :
  main_of bz_stream p o order c w = Some (st, w') →
  ∃ t, trace w' = trace w ++ t
    ∧ ((st = 0 ∧ Forall (λ e, is_diag e = false) t)
       ∨ (st = 1 ∧ ∃ t0 d, t = t0 ++ [EvDiag d] ∧ Forall (λ e, is_diag e = false) t0)).
Proof.
  intros (t & Hquiet & Hcases)%main_of_outcome.
  assert (Forall (λ e, is_diag e = false) t) as Hnodiag
    by (eapply Forall_impl; [exact Hquiet|by intros e [? _]]).
  destruct Hcases as [(-> & d & _ & ->)
                     |(kb & i & out & _ & [(-> & ->)
                                          |(content & _ & [(-> & ->)|(-> & ->)])])];
    cbn [trace].
  - eexists. split; [done|]. right. eauto.
  - exists (t ++ [EvOpenWrite out; EvDiag FailedToWriteOutput]). split; [done|]. right.
    split; [done|]. exists (t ++ [EvOpenWrite out]), FailedToWriteOutput.
    split; [by rewrite <- app_assoc|]. apply Forall_app. by repeat constructor.
  - exists (t ++ [EvOpenWrite out; EvDiag FailedToWriteOutput]). split; [done|]. right.
    split; [done|]. exists (t ++ [EvOpenWrite out]), FailedToWriteOutput.
    split; [by rewrite <- app_assoc|]. apply Forall_app. by repeat constructor.
  - eexists. split; [done|]. left. split; [done|]. apply Forall_app. by repeat constructor.
Qed.

Lemma exit_status_and_diagnostics_witness :
  ∃ w' t, main_mem store_stream faulty [0%nat] plain_run sample_world = Some (1, w')
    ∧ trace w' = trace sample_world ++ t
    ∧ ∃ t0 d, t = t0 ++ [EvDiag d] ∧ Forall (λ e, is_diag e = false) t0.
Proof.
  assert (∃ w', main_mem store_stream faulty [0%nat] plain_run sample_world = Some (1, w'))
    as [w' Hmain] by (vm_compute; eexists; reflexivity).
  destruct (exit_status_and_diagnostics store_stream OnDemand faulty [0%nat] plain_run
              sample_world w' 1 Hmain) as (t & Ht & [[Hst _]|[_ Hdiag]]).
  - discriminate Hst.
  - exists w', t. split; [exact Hmain|]. split; [exact Ht | exact Hdiag].
Defined.

(** X10: a run writes to no file but the one its second operand names,
    and not to that one either unless it gets as far as opening it: a run
    that stops before, whatever the reason, leaves the file system as it
    found it. *)
Theorem only_the_output_file_is_written
    (bz_stream : bytes → bytes) (p : pipeline) (o : oracle) (order : list nat)
    (c : cmdline) (w w' : world) (st : Z) :
  main_of bz_stream p o order c w = Some (st, w') →
  ∃ t, trace w' = trace w ++ t
    ∧ (Forall (λ e, is_open_write e = false) t → files w' = files w)
    ∧ (∀ kb input output, configure c = inr (kb, input, output) →
         (∀ path, path ≠ output → files w' !! path = files w !! path)
         ∧ Forall (λ e, is_open_write e = true → e = EvOpenWrite output) t)
    ∧ (∀ d, configure c = inl d → files w' = files w).
Proof.
  intros (t & Hquiet & Hcases)%main_of_outcome.
  assert (Forall (λ e, is_open_write e = false) t) as Hnowrite
    by (eapply Forall_impl; [exact Hquiet|by intros e [_ ?]]).
  assert (∀ out, Forall (λ e, is_open_write e = true → e = EvOpenWrite out) t) as Hnone.
  { intros out. eapply Forall_impl; [exact Hnowrite|]. intros e He. by rewrite He. }
  assert (∀ out tl, ¬ Forall (λ e, is_open_write e = false) (t ++ EvOpenWrite out :: tl))
    as Hopened.
  { intros out tl [_ Htl%Forall_cons_1]%Forall_app. by destruct Htl. }
  destruct Hcases as [(-> & d & _ & ->)
                     |(kb & i & out & Hc & [(-> & ->)
                                           |(content & Hfiles & [(-> & Ht)|(-> & Ht)])])];
    cbn [trace files].
  - eexists. split; [done|]. split_and!; [done| |done].
    intros kb i out Hc. split; [done|]. apply Forall_app. split; [done|].
    by repeat constructor.
  - eexists. split; [done|]. split_and!; [done| |done].
    intros kb' i' out' Hc'. rewrite Hc in Hc'. injection Hc' as _ _ <-.
    split; [done|]. apply Forall_app. split; [done|]. by repeat constructor.
  - eexists. split; [exact Ht|]. split_and!.
    + intros Hno. by apply Hopened in Hno.
    + intros kb' i' out' Hc'. rewrite Hc in Hc'. injection Hc' as _ _ <-. split.
      * intros path Hpath. by rewrite Hfiles, lookup_insert_ne.
      * apply Forall_app. split; [done|]. by repeat constructor.
    + intros d Hd. by rewrite Hc in Hd.
  - eexists. split; [exact Ht|]. split_and!.
    + intros Hno. by apply Hopened in Hno.
    + intros kb' i' out' Hc'. rewrite Hc in Hc'. injection Hc' as _ _ <-. split.
      * intros path Hpath. by rewrite Hfiles, lookup_insert_ne.
      * apply Forall_app. split; [done|]. by repeat constructor.
    + intros d Hd. by rewrite Hc in Hd.
Qed.

Lemma only_the_output_file_is_written_witness :
  ∃ w', main store_stream calm [0%nat] plain_run sample_world = Some (0, w')
    ∧ files w' !! "in" = files sample_world !! "in".
Proof.
  assert (∃ w', main store_stream calm [0%nat] plain_run sample_world = Some (0, w'))
    as [w' Hmain] by (vm_compute; eexists; reflexivity).
  destruct (only_the_output_file_is_written store_stream Resident calm [0%nat] plain_run
              sample_world w' 0 Hmain) as (t & _ & _ & Hframe & _).
  destruct (Hframe 900 "in" "out" eq_refl) as [Hother _].
  exists w'. split; [exact Hmain|]. apply Hother. discriminate.
Defined.

(** X11: how often the input is opened.  Up to the end of its parallel
    loop, [parallel_bzip2.c] has opened the input once, and
    [parallel_bzip2_mem.c] once per block; neither has opened any other file
    for reading, and neither has changed a file. *)
Theorem input_is_opened_once_per_block
    (bz_stream : bytes → bytes) (p : pipeline) (o : oracle) (c : cmdline) (w : world)
    (ctx : context) (s0 s : loop_state) (nthreads : nat) (order : list nat) :
  startup_of p o c w = Some (inr (ctx, s0)) →
  omp_for nthreads (Z.to_nat (num_blocks ctx)) order →
  run_iterations (body_of bz_stream p o ctx) order s0 = Some s →
  ∃ t, trace (env s) = trace w ++ t
    ∧ files (env s) = files w
    ∧ length (filter (λ e, is_open_read e = true) t)
      = match p with Resident => 1%nat | OnDemand => Z.to_nat (num_blocks ctx) end
    ∧ Forall (λ e, is_open_read e = true → e = EvOpenRead (input_filename ctx)) t.
Proof.
  intros Hstart Homp%omp_for_permutation Hrun.
  destruct (startup_of_started _ _ _ _ _ _ Hstart) as [_ ->].
  destruct (run_events _ _ _ _ _ _ _ Hrun) as (flags & Hlen & Henv).
  cbn [initial_state env files trace] in Henv. rewrite <- app_assoc in Henv.
  exists (startup_events p ctx ++ loop_events p ctx order flags).
  rewrite Henv. cbn [files trace]. split_and!; [done|done| |].
  - rewrite filter_app, length_app, loop_events_opens by done.
    rewrite Homp, length_seq. by destruct p.
  - apply Forall_app. split; [destruct p; repeat constructor; done|].
    clear. unfold loop_events. revert flags.
    induction order as [|i rest IH]; intros [|f flags]; simpl; try done.
    apply Forall_app. split; [destruct p; repeat constructor; done|apply IH].
Qed.

Lemma input_is_opened_once_per_block_witness :
  ∃ s t,
    run_iterations (iteration_mem store_stream calm
                      {| input_filename := "big"; output_filename := "out";
                         BLOCK_SIZE := 1024; file_size := 2560; num_blocks := 3;
                         file_data := [] |}) [1; 0; 2]%nat
      (initial_state 3 (log (EvStat "big") big_world)) = Some s
    ∧ trace (env s) = trace big_world ++ t
    ∧ length (filter (λ e, is_open_read e = true) t) = 3%nat.
Proof.
  assert (∃ s, run_iterations (iteration_mem store_stream calm
                      {| input_filename := "big"; output_filename := "out";
                         BLOCK_SIZE := 1024; file_size := 2560; num_blocks := 3;
                         file_data := [] |}) [1; 0; 2]%nat
      (initial_state 3 (log (EvStat "big") big_world)) = Some s) as [s Hs]
    by (vm_compute; eexists; reflexivity).
  destruct (input_is_opened_once_per_block store_stream OnDemand calm small_blocks
              big_world
              {| input_filename := "big"; output_filename := "out";
                 BLOCK_SIZE := 1024; file_size := 2560; num_blocks := 3;
                 file_data := [] |}
              (initial_state 3 (log (EvStat "big") big_world)) s 2 [1; 0; 2]%nat)
    as (t & Ht & _ & Hcount & _).
  - vm_compute. reflexivity.
  - apply omp_for_out_of_order.
  - exact Hs.
  - exists s, t. split; [exact Hs|]. split; [exact Ht | exact Hcount].
Defined.

(** ** An empty input *)

(** X12: an input file of zero bytes.  With a block size below 2 GiB,
    and if the allocations of [main] succeed and the files can be opened, both
    programs find zero blocks, call bzlib not once, and exit with status 0
    having written an output file of zero bytes. *)
Theorem empty_input_gives_empty_output
    (bz_stream : bytes → bytes) (p : pipeline) (o : oracle) (c : cmdline) (w : world)
    (kb : Z) (input output : string) (nthreads : nat) (order : list nat) :
  configure c = inr (kb, input, output) →
  kb < 2 ^ 21 →
  files w !! input = Some [] →
  alloc_ok o TableAlloc = true →
  (p = Resident → open_ok o InputStream = true ∧ alloc_ok o FileDataAlloc = true) →
  output_open_ok o = true →
  omp_for nthreads (loop_size (startup_of p o c w)) order →
  order = []
  ∧ ∃ w', main_of bz_stream p o order c w = Some (0, w')
          ∧ files w' = <[output := []]> (files w).
Proof.
  intros Hc Hkb Hin Htable Hres Hout Homp%omp_for_permutation.
  destruct (configure_inr _ _ _ _ Hc) as [Hpos _].
  assert (num_blocks_of 0 (to_int (kb * 1024)) = Some 0) as Hnum.
  { rewrite to_int_small by lia. rewrite num_blocks_of_in_range by lia.
    f_equal. apply Z.div_small. lia. }
  assert (∃ ctx w0, startup_of p o c w = Some (inr (ctx, initial_state 0 w0))
                    ∧ num_blocks ctx = 0 ∧ output_filename ctx = output
                    ∧ files w0 = files w) as (ctx & w0 & Hstart & Hn & Hname & Hw0).
  { destruct p; simpl.
    - destruct Hres as [Hopen Hfd]; [done|].
      unfold startup. rewrite Hc. unfold fopen_read, get_file_size, log.
      rewrite Hopen, Hin. cbn [files trace]. rewrite Hin. cbn [length].
      change (Z.of_nat 0) with 0. rewrite Hnum. cbn [mbind option_bind].
      unfold calloc_table. rewrite Htable, Hfd. cbn [negb andb bool_decide].
      rewrite bool_decide_true by lia. cbn [negb andb].
      assert (fread (read_limit o InputStream) [] 0 (to_size_t 0) = []) as ->
        by (unfold fread; rewrite drop_nil, take_nil;
              destruct (read_limit o InputStream); by rewrite ?take_nil).
      rewrite decide_False by (by vm_compute). eexists _, _. split; [done|]. done.
    - unfold startup_mem. rewrite Hc. unfold get_file_size, log. rewrite Hin.
      cbn [files trace length]. change (Z.of_nat 0) with 0. rewrite Hnum.
      cbn [mbind option_bind]. unfold calloc_table. rewrite Htable.
      rewrite bool_decide_true by lia. cbn [negb andb].
      eexists _, _. split; [done|]. done. }
  rewrite Hstart in Homp. cbn [loop_size] in Homp. rewrite Hn in Homp. simpl in Homp.
  apply Permutation_nil_r in Homp. split; [done|]. subst order.
  rewrite main_of_unfold, Hstart. cbn [run_iterations mbind option_bind].
  unfold finish, write_bzip2_file, cleanup_blocks, log. rewrite Hout, Hn, Hname.
  cbn. eexists. split; [done|]. cbn [files]. by rewrite Hw0.
Qed.

Lemma empty_input_gives_empty_output_witness :
  ∃ w', main_mem store_stream calm [] plain_run empty_world = Some (0, w')
        ∧ files w' = <[ "out" := [] ]> (files empty_world).
Proof.
  destruct (empty_input_gives_empty_output store_stream OnDemand calm plain_run
              empty_world 900 "in" "out" 1 []) as (_ & w' & Hmain & Hfiles).
  - reflexivity.
  - lia.
  - reflexivity.
  - reflexivity.
  - discriminate.
  - reflexivity.
  - apply (omp_for_sequential 1 0). lia.
  - exists w'. split; [exact Hmain | exact Hfiles].
Defined.

(** ** A block size that overflows *)

(** X13: the check [block_size_kb <= 0] lets through the block sizes
    whose product with 1024 does not fit an [int].  For the multiples of
    4194304 the product is 0 in 32 bits, and [main] divides by it when it
    computes [num_blocks]: the run is undefined ([parallel_bzip2.c] gets
    there only if it can open the input). *)
Theorem block_size_overflow_divides_by_zero
    (bz_stream : bytes → bytes) (p : pipeline) (o : oracle) (order : list nat)
    (c : cmdline) (w : world) (kb : Z) (input output : string) :
  configure c = inr (kb, input, output) →
  kb mod 2 ^ 22 = 0 →
  (p = Resident → open_ok o InputStream = true ∧ is_Some (files w !! input)) →
  to_int (kb * 1024) = 0
  ∧ main_of bz_stream p o order c w = None.
Proof.
  intros Hc Hmod Hres.
  assert (to_int (kb * 1024) = 0) as HBS.
  { unfold to_int. pose proof (Z.div_mod kb (2 ^ 22) ltac:(lia)) as Hdiv.
    replace (kb * 1024 + 2 ^ 31) with (2 ^ 31 + kb / 2 ^ 22 * 2 ^ 32) by lia.
    rewrite Z_mod_plus_full. reflexivity. }
  split; [done|].
  assert (∀ fs, num_blocks_of fs 0 = None) as Hnum.
  { intros fs. unfold num_blocks_of, long_div. by rewrite decide_True. }
  destruct p; simpl.
  - destruct Hres as [Hopen [content Hin]]; [done|].
    unfold main, startup. rewrite Hc, HBS. unfold fopen_read, get_file_size.
    rewrite Hopen, Hin. cbn [files log]. by rewrite Hin, Hnum.
  - unfold main_mem, startup_mem. rewrite Hc, HBS. unfold get_file_size.
    by rewrite Hnum.
Qed.

Lemma block_size_overflow_divides_by_zero_witness :
  to_int (4194304 * 1024) = 0
  ∧ main_mem store_stream calm [0%nat] huge_blocks sample_world = None.
Proof.
  apply (block_size_overflow_divides_by_zero store_stream OnDemand calm [0%nat]
           huge_blocks sample_world 4194304 "in" "out").
  - reflexivity.
  - reflexivity.
  - discriminate.
Defined.

(** ** The result of [realloc] is not checked *)

Lemma compress_block_null bz_stream e input n output h r b h' :
  realloc_ok e = false →
  compress_block bz_stream e input n output h = Some (r, b, h') → data b = None.
Proof.
  intros Hre Hcb. unfold compress_block, malloc in Hcb.
  destruct (malloc_ok e); [|by simplify_eq].
  destruct (BZ2_bzBuffToBuffCompress _ _ _ _ _ _) as [[[res len] h1]|]; [|done].
  cbn [mbind option_bind] in Hcb. destruct (decide (res ≠ BZ_OK)).
  - destruct (free _ _); [|done]. cbn [mbind option_bind] in Hcb. by simplify_eq.
  - unfold realloc in Hcb. rewrite Hre in Hcb. destruct (cells h1 !! _); [|done].
    cbn [mbind option_bind] in Hcb. by simplify_eq.
Qed.

Lemma body_keeps_null bz_stream p o ctx i j s s' :
  realloc_ok (block_env o i) = false →
  (∃ b, compressed_blocks s !! i = Some b ∧ data b = None) →
  body_of bz_stream p o ctx j s = Some s' →
  ∃ b, compressed_blocks s' !! i = Some b ∧ data b = None.
Proof.
  intros Hre (bi & Hbi & Hnull) Hit.
  assert (∀ r b h' input n output,
            compressed_blocks s !! j = Some output →
            compress_block bz_stream (block_env o j) input n output (mem s)
            = Some (r, b, h') →
            ∃ b', <[j := b]> (compressed_blocks s) !! i = Some b' ∧ data b' = None)
    as Hupdate.
  { intros r b h' input n output Hout Hcb. destruct (decide (i = j)) as [->|Hne].
    - exists b. rewrite list_lookup_insert_eq by (by eapply lookup_lt_Some).
      split; [done|]. by eapply compress_block_null.
    - exists bi. by rewrite list_lookup_insert_ne. }
  destruct p; simpl in Hit.
  - unfold iteration in Hit. destruct (read_at _ _ _); [|done].
    cbn [mbind option_bind] in Hit.
    destruct (compressed_blocks s !! j) as [output|] eqn:Hout; [|done].
    cbn [mbind option_bind] in Hit.
    destruct (compress_block _ _ _ _ _ _) as [[[r b] h']|] eqn:Hcb; [|done].
    cbn [mbind option_bind] in Hit. simplify_eq. simpl. by eapply Hupdate.
  - unfold iteration_mem, fopen_read in Hit.
    destruct (if open_ok o (BlockStream j) then _ else _);
      [|simplify_eq; simpl; eauto].
    destruct (negb _); [simplify_eq; simpl; eauto|].
    destruct (decide _); [simplify_eq; simpl; eauto|].
    destruct (compressed_blocks s !! j) as [output|] eqn:Hout; [|done].
    cbn [mbind option_bind] in Hit.
    destruct (compress_block _ _ _ _ _ _) as [[[r b] h']|] eqn:Hcb; [|done].
    cbn [mbind option_bind] in Hit. simplify_eq. simpl. by eapply Hupdate.
Qed.

Lemma run_keeps_null bz_stream p o ctx i order s s' :
  realloc_ok (block_env o i) = false →
  (∃ b, compressed_blocks s !! i = Some b ∧ data b = None) →
  run_iterations (body_of bz_stream p o ctx) order s = Some s' →
  ∃ b, compressed_blocks s' !! i = Some b ∧ data b = None.
Proof.
  intros Hre. revert s. induction order as [|j rest IH]; intros s Hnull Hrun;
    simpl in Hrun; [by simplify_eq|].
  destruct (body_of bz_stream p o ctx j s) as [s1|] eqn:Hs1; [|done].
  cbn [mbind option_bind] in Hrun. eapply IH; [|done]. by eapply body_keeps_null.
Qed.

(** The table after a parallel loop that has counted no failure. *)
Lemma clean_run_entries bz_stream p o c w ctx s0 s order :
  startup_of p o c w = Some (inr (ctx, s0)) →
  order ≡ₚ loop_indices (num_blocks ctx) →
  run_iterations (body_of bz_stream p o ctx) order s0 = Some s →
  compression_errors s ≤ 0 →
  ∀ i, i ∈ loop_indices (num_blocks ctx) →
    ∃ b, compressed_blocks s !! i = Some b
         ∧ good_entry (mem s) (block_payload bz_stream p ctx (files w) i) b.
Proof.
  intros Hstart Hperm Hrun Hzero.
  destruct (startup_of_initial p o c w ctx s0 Hstart) as (Hn & t0 & -> & _).
  destruct (parallel_phase bz_stream p o ctx _ _ order s Hn Hperm Hrun)
    as (Hinv & flags & t1 & Hlen & Henv & _ & _ & Hcount & Hentries).
  pose proof (failed_count_bounds flags) as Hbounds.
  assert (Forall (λ f, f = false) flags) as Hflags by (apply failed_count_zero; lia).
  intros i Hi. rewrite <- Hperm in Hi. apply list_elem_of_lookup in Hi as [k Hk].
  destruct (lookup_lt_is_Some_2 flags k) as [f Hf].
  { rewrite Hlen. by eapply lookup_lt_Some. }
  destruct (Hentries k i f Hk Hf) as (b & Hb & _ & Hgood).
  exists b. split; [done|]. apply Hgood.
  rewrite Forall_forall in Hflags. apply Hflags. by eapply list_elem_of_lookup_2.
Qed.

Lemma write_loop_null (P : nat → bytes) limit indices blocks h sent i b :
  (∀ j, limit j = None) →
  (∀ j, j ∈ indices → ∃ bj, blocks !! j = Some bj ∧ good_entry h (P j) bj) →
  i ∈ indices → blocks !! i = Some b → data b = None → size b ≠ 0 →
  write_loop limit indices blocks h sent = None.
Proof.
  intros Hlimit. revert sent. induction indices as [|j rest IH];
    intros sent Hgood Hi Hb Hnull Hsize; [by apply elem_of_nil in Hi|].
  cbn [write_loop]. destruct (Hgood j) as (bj & Hbj & Hsz & Hdata); [left|].
  rewrite Hbj. cbn [mbind option_bind]. unfold fwrite. rewrite Hlimit.
  destruct (decide (size bj = 0)) as [Hz|Hz].
  - cbn [mbind option_bind]. rewrite decide_False by lia.
    apply IH; try done.
    + intros k Hk. apply Hgood. by right.
    + apply elem_of_cons in Hi as [->|Hi]; [congruence|done].
  - destruct Hdata as [Hd|(a & Hd & Hcell)]; rewrite Hd; [done|].
    cbn [mbind option_bind]. rewrite Hcell. cbn [mbind option_bind].
    rewrite decide_True by lia. cbn [mbind option_bind].
    rewrite decide_False by lia. apply IH; try done.
    + intros k Hk. apply Hgood. by right.
    + apply elem_of_cons in Hi as [->|Hi]; [congruence|done].
Qed.

(** X14: [compress_block] stores what [realloc] returns without looking
    at it, and returns 0.  If that [realloc] fails for a block whose
    compressed stream is not empty, the block is not counted as failed; if no
    other block is, [write_bzip2_file] is called and, once the output is open
    and the blocks before have been written, hands [fwrite] a [NULL] pointer
    with a size other than 0: the run is undefined. *)
Theorem unchecked_realloc_failure_is_undefined
    (bz_stream : bytes → bytes) (p : pipeline) (o : oracle) (c : cmdline) (w : world)
    (ctx : context) (s0 s : loop_state) (nthreads : nat) (order : list nat) (i : nat) :
  startup_of p o c w = Some (inr (ctx, s0)) →
  omp_for nthreads (Z.to_nat (num_blocks ctx)) order →
  run_iterations (body_of bz_stream p o ctx) order s0 = Some s →
  compression_errors s = 0 →
  output_open_ok o = true →
  (∀ j, write_limit o j = None) →
  (i < Z.to_nat (num_blocks ctx))%nat →
  realloc_ok (block_env o i) = false →
  block_payload bz_stream p ctx (files w) i ≠ [] →
  main_of bz_stream p o order c w = None.
Proof.
  intros Hstart Homp%omp_for_permutation Hrun Herr Hopen Hlimit Hi Hre Hpayload.
  rewrite (main_of_steps _ _ _ _ _ _ _ _ _ Hstart Hrun).
  pose proof (clean_run_entries _ _ _ _ _ _ _ _ _ Hstart Homp Hrun ltac:(lia)) as Hgood.
  assert (i ∈ loop_indices (num_blocks ctx)) as Hin by (apply elem_of_seq; lia).
  destruct (startup_of_initial p o c w ctx s0 Hstart) as (Hn & t0 & -> & _).
  assert (∃ b, compressed_blocks
                 (initial_state (num_blocks ctx)
                    {| files := files w; trace := trace w ++ t0 |}) !! i = Some b
               ∧ data b = None) as Hzero.
  { exists zero_block. split; [|done]. simpl. apply lookup_replicate_2. lia. }
  destruct (run_keeps_null _ _ _ _ i _ _ _ Hre Hzero Hrun) as (b & Hb & Hnull).
  destruct (Hgood i Hin) as (b' & Hb' & Hsz & _). rewrite Hb in Hb'. injection Hb' as <-.
  unfold finish. rewrite decide_False by lia.
  unfold write_bzip2_file. rewrite Hopen.
  rewrite (write_loop_null (block_payload bz_stream p ctx (files w)) _ _ _ _ _ i b);
    try done.
  rewrite Hsz. destruct (block_payload bz_stream p ctx (files w) i); [done|].
  simpl. lia.
Qed.

Lemma unchecked_realloc_failure_is_undefined_witness :
  main store_stream forgetful [0%nat] plain_run sample_world = None.
Proof.
  assert (∃ s, run_iterations (iteration store_stream forgetful
                      {| input_filename := "in"; output_filename := "out";
                         BLOCK_SIZE := 921600; file_size := 3; num_blocks := 1;
                         file_data := [Byte.x61; Byte.x62; Byte.x63] |}) [0%nat]
      (initial_state 1 (log (EvStat "in") (log (EvOpenRead "in") sample_world))) = Some s
      ∧ compression_errors s = 0) as (s & Hs & Herr)
    by (vm_compute; eexists; split; reflexivity).
  apply (unchecked_realloc_failure_is_undefined store_stream Resident forgetful plain_run
           sample_world
           {| input_filename := "in"; output_filename := "out";
              BLOCK_SIZE := 921600; file_size := 3; num_blocks := 1;
              file_data := [Byte.x61; Byte.x62; Byte.x63] |}
           (initial_state 1 (log (EvStat "in") (log (EvOpenRead "in") sample_world)))
           s 1 [0%nat] 0).
  - vm_compute. reflexivity.
  - apply (omp_for_sequential 1 1). lia.
  - exact Hs.
  - exact Herr.
  - reflexivity.
  - reflexivity.
  - simpl. lia.
  - reflexivity.
  - discriminate.
Defined.

(** ** Runs that are defined *)

Lemma num_blocks_of_defined fs BS : 0 < BS → is_Some (num_blocks_of fs BS).
Proof.
  intros HBS. unfold num_blocks_of, long_div. rewrite decide_False by lia.
  rewrite decide_False by lia. by eexists.
Qed.

Lemma startup_of_defined p o c w kb input output :
  configure c = inr (kb, input, output) → 0 < to_int (kb * 1024) →
  is_Some (startup_of p o c w).
Proof.
  intros Hc HBS. destruct p; simpl.
  - unfold startup. rewrite Hc. unfold fopen_read, get_file_size.
    destruct (if open_ok o InputStream then _ else _); [|by eexists].
    match goal with |- context [num_blocks_of ?fs ?bs] =>
      destruct (num_blocks_of_defined fs bs HBS) as [n ->] end.
    cbn [mbind option_bind]. destruct (negb _); [by eexists|].
    destruct (negb _); [by eexists|]. destruct (decide _); by eexists.
  - unfold startup_mem. rewrite Hc. unfold get_file_size.
    match goal with |- context [num_blocks_of ?fs ?bs] =>
      destruct (num_blocks_of_defined fs bs HBS) as [n ->] end.
    cbn [mbind option_bind]. destruct (negb _); by eexists.
Qed.

Lemma insert_same {A} (l : list A) (i : nat) (d : A) :
  <[i := default d (l !! i)]> l = l.
Proof.
  destruct (l !! i) as [x|] eqn:Hx; simpl.
  - by apply list_insert_id.
  - apply list_insert_ge. by apply lookup_ge_None.
Qed.

(** One iteration: the entry it writes, whether it counts a failure, and
    that an iteration that counts none has left a pointer in its entry, if the
    final [realloc] did not fail. *)
Lemma body_step bz_stream p o ctx i s s' :
  heap_wf (mem s) →
  body_of bz_stream p o ctx i s = Some s' →
  ∃ (f : bool) b, compressed_blocks s' = <[i := b]> (compressed_blocks s)
    ∧ compression_errors s'
      = (if f then to_int (compression_errors s + 1) else compression_errors s)
    ∧ (f = false → realloc_ok (block_env o i) = true →
       (i < length (compressed_blocks s))%nat ∧ is_Some (data b)).
Proof.
  intros Hwf Hit.
  assert (∀ output r b h' input n,
            compressed_blocks s !! i = Some output →
            compress_block bz_stream (block_env o i) input n output (mem s)
            = Some (r, b, h') →
            bool_decide (r ≠ 0) = false → realloc_ok (block_env o i) = true →
            (i < length (compressed_blocks s))%nat ∧ is_Some (data b)) as Hptr.
  { intros output r b h' input n Hout Hcb Hr%bool_decide_eq_false Hre.
    apply dec_stable in Hr. split; [by eapply lookup_lt_Some|].
    destruct (compress_block_cells bz_stream _ _ _ _ _ _ _ _ Hwf Hcb)
      as [(? & _)|[(_ & _ & -> & _)|(_ & ? & _)]]; [lia|by eexists|congruence]. }
  destruct p; simpl in Hit.
  - unfold iteration in Hit. destruct (read_at _ _ _); [|done].
    cbn [mbind option_bind] in Hit.
    destruct (compressed_blocks s !! i) as [output|] eqn:Hout; [|done].
    cbn [mbind option_bind] in Hit.
    destruct (compress_block _ _ _ _ _ _) as [[[r b] h']|] eqn:Hcb; [|done].
    cbn [mbind option_bind] in Hit. simplify_eq. exists (bool_decide (r ≠ 0)), b.
    simpl. split_and!; [done|done|]. by eapply Hptr.
  - unfold iteration_mem, fopen_read in Hit.
    destruct (if open_ok o (BlockStream i) then _ else _).
    2:{ simplify_eq. exists true, (default zero_block (compressed_blocks s !! i)).
        simpl. split_and!; [symmetry; apply insert_same|done|done]. }
    destruct (negb _).
    { simplify_eq. exists true, (default zero_block (compressed_blocks s !! i)).
      simpl. split_and!; [symmetry; apply insert_same|done|done]. }
    destruct (decide _).
    { simplify_eq. exists true, (default zero_block (compressed_blocks s !! i)).
      simpl. split_and!; [symmetry; apply insert_same|done|done]. }
    destruct (compressed_blocks s !! i) as [output|] eqn:Hout; [|done].
    cbn [mbind option_bind] in Hit.
    destruct (compress_block _ _ _ _ _ _) as [[[r b] h']|] eqn:Hcb; [|done].
    cbn [mbind option_bind] in Hit. simplify_eq. exists (bool_decide (r ≠ 0)), b.
    simpl. split_and!; [done|done|]. by eapply Hptr.
Qed.

Lemma run_clean_pointers bz_stream p o ctx n order s s' :
  NoDup order → loop_inv n s →
  (∀ i, realloc_ok (block_env o i) = true) →
  0 ≤ compression_errors s →
  compression_errors s + Z.of_nat (length order) ≤ INT_MAX →
  run_iterations (body_of bz_stream p o ctx) order s = Some s' →
  compression_errors s ≤ compression_errors s'
  ∧ (compression_errors s' = compression_errors s →
     ∀ i, i ∈ order → ∃ b, compressed_blocks s' !! i = Some b ∧ is_Some (data b))
  ∧ (∀ j, j ∉ order → compressed_blocks s' !! j = compressed_blocks s !! j).
Proof.
  intros Hnd. revert s. induction Hnd as [|i rest Hi Hnd IH];
    intros s Hinv Hre Hpos Hmax Hrun; simpl in Hrun.
  { simplify_eq. split_and!; [lia| |done]. intros _ i Hi. by apply elem_of_nil in Hi. }
  destruct (body_of bz_stream p o ctx i s) as [s1|] eqn:Hs1; [|done].
  cbn [mbind option_bind] in Hrun.
  destruct (body_step _ _ _ _ _ _ _ ltac:(by destruct Hinv) Hs1) as (f & b & Htab & Herr & Hptr).
  assert (loop_inv n s1) as Hinv1.
  { eapply (loop_inv_of_run bz_stream p o ctx [i]); [exact Hinv|]. simpl. by rewrite Hs1. }
  cbn [length] in Hmax. unfold INT_MAX in *.
  assert (compression_errors s1 = if f then compression_errors s + 1 else compression_errors s)
    as Herr1 by (destruct f; [rewrite Herr, to_int_small by lia|]; done).
  destruct (IH s1 Hinv1 Hre) as (Hle & Hclean & Hothers); [destruct f; lia|destruct f; lia|done|].
  split_and!.
  - destruct f; lia.
  - intros Heq. assert (f = false) as -> by (destruct f; [lia|done]).
    destruct (Hptr eq_refl (Hre i)) as [Hlt [a Ha]].
    intros j [->|Hj]%elem_of_cons.
    + exists b. rewrite Hothers, Htab, list_lookup_insert_eq by done. eauto.
    + apply Hclean; [lia|done].
  - intros j Hj. rewrite Hothers, Htab by (intros ?; apply Hj; by right).
    apply list_lookup_insert_ne. intros ->. apply Hj. by left.
Qed.

Lemma write_loop_defined (P : nat → bytes) limit indices blocks h sent :
  (∀ i, i ∈ indices → ∃ b, blocks !! i = Some b ∧ holds h b (P i)) →
  is_Some (write_loop limit indices blocks h sent).
Proof.
  revert sent. induction indices as [|i rest IH]; intros sent Hholds; [by eexists|].
  cbn [write_loop]. destruct (Hholds i) as (b & -> & Hb); [left|].
  cbn [mbind option_bind]. rewrite (fwrite_holds _ _ _ _ Hb). cbn [mbind option_bind].
  destruct (decide _); [by eexists|]. apply IH. intros j Hj. apply Hholds. by right.
Qed.

(** X15: when does a run return.  With a block size below 2 GiB and a
    final [realloc] that does not fail, a run of [parallel_bzip2_mem.c]
    returns, whatever else fails: a file that cannot be opened or read, an
    allocation, bzlib, a write.  So does a run of [parallel_bzip2.c], if
    [file_size + BLOCK_SIZE] fits 32 bits. *)
Theorem run_always_returns
    (bz_stream : bytes → bytes) (p : pipeline) (o : oracle) (c : cmdline) (w : world)
    (kb : Z) (input output : string) (nthreads : nat) (order : list nat) :
  configure c = inr (kb, input, output) →
  kb < 2 ^ 21 →
  (p = Resident → ∀ content : bytes,
     files w !! input = Some content → Z.of_nat (length content) + kb * 1024 ≤ 2 ^ 32) →
  (∀ i, realloc_ok (block_env o i) = true) →
  omp_for nthreads (loop_size (startup_of p o c w)) order →
  ∃ st w', main_of bz_stream p o order c w = Some (st, w').
Proof.
  intros Hc Hkb Hrange Hre Homp%omp_for_permutation.
  destruct (configure_inr _ _ _ _ Hc) as [Hpos _].
  assert (to_int (kb * 1024) = kb * 1024) as HBS by (apply to_int_small; lia).
  destruct (startup_of_defined p o c w kb input output Hc) as [r Hstart]; [lia|].
  rewrite main_of_unfold, Hstart. rewrite Hstart in Homp.
  destruct r as [[code w1]|[ctx s0]]; [by eauto|]. cbn [loop_size] in Homp.
  assert (p = OnDemand
          ∨ (in_range ctx ∧ Z.of_nat (length (file_data ctx)) = file_size ctx)) as Hp.
  { destruct p; [right|by left]. simpl in Hstart.
    apply startup_inr in Hstart
      as (kb' & content & Hc' & HBS' & Hfile & Hfs & Hnum & _ & _ & Hlen & _).
    rewrite Hc in Hc'. injection Hc' as <- Hin _. rewrite <- Hin in Hfile.
    specialize (Hrange eq_refl content Hfile). rewrite HBS in HBS'.
    rewrite HBS', Hfs in Hnum. rewrite num_blocks_of_in_range in Hnum by lia.
    injection Hnum as Hnum. split.
    - unfold in_range. rewrite HBS', Hfs. split_and!; [lia|lia|lia|lia|done].
    - rewrite Hlen, Hfs. unfold to_size_t. apply Z.mod_small. lia. }
  destruct (startup_of_initial p o c w ctx s0 Hstart) as (Hn & t0 & -> & _).
  set (s0 := initial_state (num_blocks ctx) {| files := files w; trace := trace w ++ t0 |}).
  assert (loop_inv (Z.to_nat (num_blocks ctx)) s0) as Hinv0 by (apply loop_inv_initial; lia).
  destruct (run_iterations_total bz_stream p o ctx order s0 Hp) as [s Hrun]; [|done|].
  { rewrite Homp. apply Forall_forall. intros i Hi%elem_of_seq. lia. }
  rewrite Hrun. cbn [mbind option_bind].
  pose proof (loop_inv_of_run _ _ _ _ _ _ _ _ Hinv0 Hrun) as Hinv.
  destruct (cleanup_blocks_safe _ _ Hinv) as [hc Hclean].
  unfold finish. rewrite Hclean. destruct (decide (compression_errors s > 0)); [by eauto|].
  destruct (run_clean_pointers bz_stream p o ctx (Z.to_nat (num_blocks ctx)) order s0 s)
    as (Hle & Hptr & _); try done.
  { rewrite Homp. apply NoDup_seq. }
  { simpl. rewrite Homp, length_seq. unfold INT_MAX in *. lia. }
  simpl in Hle.
  pose proof (clean_run_entries _ _ _ _ _ _ _ _ _ Hstart Homp Hrun ltac:(lia)) as Hgood.
  unfold write_bzip2_file. destruct (output_open_ok o).
  - destruct (write_loop_defined (block_payload bz_stream p ctx (files w))
                (write_limit o) (loop_indices (num_blocks ctx)) (compressed_blocks s)
                (mem s) []) as [[r content] ->].
    { intros i Hi. destruct (Hgood i Hi) as (b & Hb & Hsz & Hdata).
      exists b. split; [done|].
      destruct (Hptr ltac:(simpl; lia) i) as (b' & Hb' & a & Ha).
      { by rewrite Homp. }
      rewrite Hb in Hb'. injection Hb' as <-.
      destruct Hdata as [?|(a' & Ha' & Hcell)]; [congruence|]. by exists a'. }
    cbn [mbind option_bind]. destruct (decide _); by eauto.
  - cbn [mbind option_bind]. destruct (decide _); by eauto.
Qed.

Lemma run_always_returns_witness :
  ∃ st w', main_mem store_stream faulty [1; 0; 2]%nat small_blocks big_world
           = Some (st, w').
Proof.
  apply (run_always_returns store_stream OnDemand faulty small_blocks big_world
           1 "big" "out" 2 [1; 0; 2]%nat).
  - reflexivity.
  - lia.
  - discriminate.
  - intros [|i]; reflexivity.
  - replace (loop_size (startup_of OnDemand faulty small_blocks big_world)) with 3%nat
      by (vm_compute; reflexivity).
    apply omp_for_out_of_order.
Defined.

(** ** An input that cannot be opened *)

(** X16: [parallel_bzip2.c] opens the input before anything else.  If
    the file is missing or cannot be opened, it prints [Error opening input
    file] and exits with status 1, having neither called [stat] nor touched
    a file. *)
Theorem resident_reports_unopenable_input
    (bz_stream : bytes → bytes) (o : oracle) (order : list nat) (c : cmdline) (w : world)
    (kb : Z) (input output : string) :
  configure c = inr (kb, input, output) →
  files w !! input = None ∨ open_ok o InputStream = false →
  main bz_stream o order c w
  = Some (1, {| files := files w;
                trace := trace w ++ [EvOpenRead input; EvDiag ErrorOpeningInput] |}).
Proof.
  intros Hc Hfail. unfold main, startup. rewrite Hc. unfold fopen_read.
  assert ((if open_ok o InputStream then files w !! input else None) = None) as ->
    by (destruct Hfail as [->| ->]; [by destruct (open_ok o InputStream)|done]).
  cbn [mbind option_bind]. unfold exit_with, log. cbn [files trace].
  by rewrite <- app_assoc.
Qed.

Lemma resident_reports_unopenable_input_witness :
  main store_stream calm [] {| options := []; operands := ["absent"; "out"] |} sample_world
  = Some (1, {| files := files sample_world;
                trace := [EvOpenRead "absent"; EvDiag ErrorOpeningInput] |}).
Proof.
  apply (resident_reports_unopenable_input store_stream calm []
           {| options := []; operands := ["absent"; "out"] |} sample_world
           900 "absent" "out").
  - reflexivity.
  - left. reflexivity.
Defined.

(** ** What an iteration touches *)

(** X17: an iteration of the parallel loop writes to its own entry of the
    table and to memory it has allocated itself, and to nothing else: the
    other entries, the buffers that are live when it starts and the files are
    as they were when it ends, and the table and the heap still fit
    together. *)
Theorem iteration_touches_only_its_entry
    (bz_stream : bytes → bytes) (p : pipeline) (o : oracle) (ctx : context)
    (n i : nat) (s s' : loop_state) :
  loop_inv n s →
  (i < n)%nat →
  body_of bz_stream p o ctx i s = Some s' →
  (∀ j, j ≠ i → compressed_blocks s' !! j = compressed_blocks s !! j)
  ∧ (∀ a, is_Some (cells (mem s) !! a) → cells (mem s') !! a = cells (mem s) !! a)
  ∧ files (env s') = files (env s)
  ∧ loop_inv n s'.
Proof.
  intros Hinv Hi Hit.
  destruct (body_meets_spec bz_stream p o ctx n (files (env s)) i s s' Hinv eq_refl Hi Hit)
    as (f & t & b & Henv & _ & _ & Hinv' & _ & Hcells & Htab & _).
  split_and!; [| |by rewrite Henv|done].
  - intros j Hj. by rewrite Htab, list_lookup_insert_ne.
  - intros a Ha. apply Hcells. destruct Hinv as [Hwf _]. by apply Hwf.
Qed.

Lemma iteration_touches_only_its_entry_witness :
  ∃ s s',
    iteration_mem store_stream calm
      {| input_filename := "big"; output_filename := "out";
         BLOCK_SIZE := 1024; file_size := 2560; num_blocks := 3; file_data := [] |}
      1 (initial_state 3 (log (EvStat "big") big_world)) = Some s
    ∧ iteration_mem store_stream calm
        {| input_filename := "big"; output_filename := "out";
           BLOCK_SIZE := 1024; file_size := 2560; num_blocks := 3; file_data := [] |}
        0 s = Some s'
    ∧ compressed_blocks s' !! 1%nat = compressed_blocks s !! 1%nat
    ∧ loop_inv 3 s'.
Proof.
  assert (∃ s, iteration_mem store_stream calm
      {| input_filename := "big"; output_filename := "out";
         BLOCK_SIZE := 1024; file_size := 2560; num_blocks := 3; file_data := [] |}
      1 (initial_state 3 (log (EvStat "big") big_world)) = Some s) as [s Hs]
    by (vm_compute; eexists; reflexivity).
  assert (loop_inv 3 s) as Hinv.
  { apply (iteration_mem_inv store_stream calm
             {| input_filename := "big"; output_filename := "out";
                BLOCK_SIZE := 1024; file_size := 2560; num_blocks := 3; file_data := [] |}
             3 1 (initial_state 3 (log (EvStat "big") big_world)) s);
      [|exact Hs]. apply (loop_inv_initial 3 (log (EvStat "big") big_world)). lia. }
  destruct (iteration_mem_total store_stream calm
              {| input_filename := "big"; output_filename := "out";
                 BLOCK_SIZE := 1024; file_size := 2560; num_blocks := 3; file_data := [] |}
              3 0 s Hinv ltac:(lia)) as [s' Hs'].
  destruct (iteration_touches_only_its_entry store_stream OnDemand calm
              {| input_filename := "big"; output_filename := "out";
                 BLOCK_SIZE := 1024; file_size := 2560; num_blocks := 3; file_data := [] |}
              3 0 s s' Hinv ltac:(lia) Hs') as (Hothers & _ & _ & Hinv').
  exists s, s'. split; [exact Hs|]. split; [exact Hs'|].
  split; [apply Hothers; discriminate | exact Hinv'].
Defined.
